(** * repoproxy: the caching gateway of [repoproxyd.go], embedded and verified

    The development follows the source file top to bottom: the pieces of the
    Go standard library the handler calls ([strings], [strconv],
    [path/filepath], [io]), the two tables of [repoproxy.sql], the blob store
    under the cache directory, and then [getRepoMap], [itemInCache],
    [updateCache], [prepareCacheDir] and [mainHandler] themselves.

    Collaborators whose answers the program cannot influence (the upstream
    server, failures of the database, of the file system and of the two
    sinks of the stream copy) are gathered in a record [Env]; what the
    program reads and writes (the [cacheitem] table, the files under the
    cache directory) is threaded explicitly as a [State].  Logging and the
    sentry calls only produce [ELog] and [ECapture] events; their
    arguments are not modelled.

    A run of [mainHandler] is one request with the index and the blob store
    to itself.  What requests running at the same time do to a key of the
    index and to a cache path is modelled apart, as interleavings of their
    database rounds ([ucRun]) and of their file operations ([blobRun]). *)

From Stdlib Require Import ZArith Ascii String Strings.Byte List Bool Lia.
From stdpp Require Import base option list gmap strings.

Open Scope string_scope.

(** ** Package [strings] *)

Module strings.

(** [strings.HasPrefix(s, prefix)] *)
Fixpoint HasPrefix (s prefix : string) {struct prefix} : bool :=
  match prefix, s with
  | EmptyString, _ => true
  | String _ _, EmptyString => false
  | String p prefix', String c s' =>
      if Ascii.eqb c p then HasPrefix s' prefix' else false
  end.

(** [s[n:]] for [n <= len(s)] *)
Fixpoint drop (n : nat) (s : string) : string :=
  match n, s with
  | O, _ => s
  | S n', String _ s' => drop n' s'
  | S _, EmptyString => EmptyString
  end.

(** [s[:n]] for [n <= len(s)] *)
Fixpoint take (n : nat) (s : string) : string :=
  match n, s with
  | O, _ => EmptyString
  | S n', String c s' => String c (take n' s')
  | S _, EmptyString => EmptyString
  end.

(** [strings.TrimPrefix(s, prefix)]: [s] without the leading [prefix], or
    [s] itself when it does not start with [prefix]. *)
Definition TrimPrefix (s prefix : string) : string :=
  if HasPrefix s prefix then drop (String.length prefix) s else s.

(** [strings.HasSuffix(s, suffix)] *)
Definition HasSuffix (s suffix : string) : bool :=
  (String.length suffix <=? String.length s)%nat &&
  String.eqb (drop (String.length s - String.length suffix) s) suffix.

(** [strings.TrimSuffix(s, suffix)] *)
Definition TrimSuffix (s suffix : string) : string :=
  if HasSuffix s suffix
  then take (String.length s - String.length suffix) s
  else s.

(** [strings.Index(s, sep)]: position of the first instance of [sep] in
    [s]; [None] stands for Go's [-1]. *)
Fixpoint Index (s sep : string) : option nat :=
  if HasPrefix s sep then Some O
  else match s with
       | EmptyString => None
       | String _ s' => S <$> Index s' sep
       end.

(** [strings.Contains(s, substr)] *)
Definition Contains (s substr : string) : bool :=
  match Index s substr with Some _ => true | None => false end.

(** The loop of [genSplit] for a non-empty separator: [k] is the number of
    cuts still allowed ([n - 1] in the source). *)
Fixpoint splitLoop (k : nat) (s sep : string) : list string :=
  match k with
  | O => [s]
  | S k' =>
      match Index s sep with
      | None => [s]
      | Some m =>
          take m s :: splitLoop k' (drop (m + String.length sep) s) sep
      end
  end.

(** [strings.SplitN(s, sep, n)] for a non-empty [sep] and [n >= 0]:
    [n = 0] gives the nil slice, otherwise at most [n] pieces, the last
    one being the unsplit remainder.  (The source caps [n] at
    [len(s) + 1], which the loop never exceeds.) *)
Definition SplitN (s sep : string) (n : nat) : list string :=
  match n with
  | O => []
  | S k => splitLoop k s sep
  end.

(** [strings.Join(elems, sep)] *)
Fixpoint Join (elems : list string) (sep : string) : string :=
  match elems with
  | [] => ""
  | [e] => e
  | e :: rest => e ++ sep ++ Join rest sep
  end.

End strings.

(** ** Package [strconv] *)

Module strconv.

Definition digit_of (c : ascii) : option Z :=
  let n := Z.of_nat (nat_of_ascii c) in
  if ((48 <=? n) && (n <=? 57))%Z then Some (n - 48)%Z else None.

(** The two errors of the package: [ErrSyntax] and [ErrRange]. *)
Inductive numError : Type := ErrSyntax | ErrRange.

Definition maxUint64 : Z := (2 ^ 64 - 1)%Z.
Definition cutoff64 : Z := (2 ^ 63)%Z.

(** [maxUint64/10 + 1]: the smallest value whose product by 10 overflows. *)
Definition cutoffMul : Z := (maxUint64 / 10 + 1)%Z.

(** The loop of [ParseUint] over the bytes of a base-10 literal, [n] being
    the value read so far.  A byte that is not a decimal digit ends it with
    0 and the syntax error; a digit that makes the value overflow ends it,
    at that digit and with the rest unread, with [maxUint64] and the range
    error. *)
Fixpoint uintLoop (n : Z) (s : string) : Z * option numError :=
  match s with
  | EmptyString => (n, None)
  | String c s' =>
      match digit_of c with
      | None => (0%Z, Some ErrSyntax)
      | Some d =>
          if (cutoffMul <=? n)%Z then (maxUint64, Some ErrRange)
          else
            let n1 := (n * 10 + d)%Z in
            if (maxUint64 <? n1)%Z then (maxUint64, Some ErrRange)
            else uintLoop n1 s'
      end
  end.

(** [strconv.ParseUint(s, 10, 64)] with the error it returns. *)
Definition parseUint (s : string) : Z * option numError :=
  match s with
  | EmptyString => (0%Z, Some ErrSyntax)
  | _ => uintLoop 0 s
  end.

(** [strconv.ParseUint(s, 10, 64)]: value and error flag. *)
Definition ParseUint (s : string) : Z * bool :=
  ((parseUint s).1, match (parseUint s).2 with Some _ => true | None => false end).

(** The error of [ParseUint] is the syntax error. *)
Definition isSyntaxError (s : string) : bool :=
  match (parseUint s).2 with Some ErrSyntax => true | _ => false end.

(** [strconv.ParseInt(s, 10, 64)]: value and error flag. *)
Definition ParseInt (s : string) : Z * bool :=
  match s with
  | EmptyString => (0%Z, true)
  | String c s' =>
      let neg := Ascii.eqb c "-" in
      let body := if Ascii.eqb c "+" || neg then s' else s in
      let '(un, err) := ParseUint body in
      if err && isSyntaxError body then (0%Z, true)
      else if negb neg && (cutoff64 <=? un)%Z then ((cutoff64 - 1)%Z, true)
      else if neg && (cutoff64 <? un)%Z then ((- cutoff64)%Z, true)
      else ((if neg then - un else un)%Z, false)
  end.

End strconv.

(** ** Package [path/filepath] (Unix) *)

Module filepath.

(** The components of a path between its separators. *)
Fixpoint components (cur : string) (s : string) : list string :=
  match s with
  | EmptyString => [cur]
  | String c s' =>
      if Ascii.eqb c "/" then cur :: components "" s'
      else components (cur ++ String c "") s'
  end.

(** One step of the lexical clean-up; [out] is the stack of components
    kept so far, innermost first. *)
Definition cleanStep (rooted : bool) (out : list string) (c : string)
  : list string :=
  if String.eqb c "" || String.eqb c "." then out
  else if String.eqb c ".." then
    match out with
    | top :: out' =>
        if String.eqb top ".." then c :: out else out'
    | [] => if rooted then [] else [c]
    end
  else c :: out.

(** [filepath.Clean(path)] *)
Definition Clean (path : string) : string :=
  match path with
  | EmptyString => "."
  | String c _ =>
      let rooted := Ascii.eqb c "/" in
      let out := rev (fold_left (cleanStep rooted) (components "" path) []) in
      let body := strings.Join out "/" in
      if rooted then "/" ++ body
      else if String.eqb body "" then "." else body
  end.

(** [filepath.Join(elem...)]: the elements from the first non-empty one
    on, joined by the separator and cleaned; [""] when all are empty. *)
Fixpoint Join (elem : list string) : string :=
  match elem with
  | [] => ""
  | e :: rest =>
      if String.eqb e "" then Join rest
      else Clean (strings.Join elem "/")
  end.

(** Length of the prefix of [s] that ends with its last separator. *)
Fixpoint lastSep (s : string) : nat :=
  match s with
  | EmptyString => O
  | String c s' =>
      if strings.Contains s "/" then S (lastSep s') else O
  end.

(** [filepath.Dir(path)] *)
Definition Dir (path : string) : string :=
  Clean (strings.take (lastSep path) path).

End filepath.

(** ** Package [io]: writers, [MultiWriter] and [Copy] *)

Abbreviation bytes := (list Byte.byte).

(** A Go [error] value; [None] of [option error] is [nil]. *)
Inductive error : Type :=
| ErrWrite          (* a sink refused the write *)
| ErrShortWrite     (* io.ErrShortWrite *)
| ErrRead           (* the reader failed before EOF *)
| ErrNoRows         (* pgx.ErrNoRows *)
| ErrDB             (* any other failure of the database *)
| ErrFS.            (* a failed file-system call *)

(** The interface [io.Writer]: [Write w p] gives the writer afterwards,
    the number of bytes taken and the error. *)
Class Writer (W : Type) := Write : W → bytes → W * nat * option error.

(** What one [Read] of a body returns besides its bytes. *)
Inductive readEnd : Type := ReadMore | ReadEOF | ReadFail.

(** A reader, as the sequence of results of its [Read] calls; past the end
    of the list a [Read] returns no bytes and [io.EOF]. *)
Abbreviation Reader := (list (bytes * readEnd)).

(** How many more bytes a sink takes before its writes fail; [None] is a
    sink that never fails. *)
Abbreviation room := (option nat).

(** A write of [p] against the room left: the bytes that get through, the
    room afterwards and the error. *)
Definition takeRoom (r : room) (p : bytes) : bytes * room * option error :=
  match r with
  | None => (p, None, None)
  | Some k =>
      if (length p <=? k)%nat then (p, Some (k - length p)%nat, None)
      else (firstn k p, Some O, Some ErrWrite)
  end.

(** [io.MultiWriter(a, b)]: each write goes to [a], then to [b]; the first
    error or short write stops it. *)
#[export] Instance MultiWriter {A B : Type} `{Writer A} `{Writer B}
  : Writer (A * B) :=
  fun ab p =>
    let '(a, b) := ab in
    let '(a', n, err) := Write a p in
    match err with
    | Some e => ((a', b), n, Some e)
    | None =>
        if negb (n =? length p)%nat then ((a', b), n, Some ErrShortWrite)
        else
          let '(b', m, err') := Write b p in
          match err' with
          | Some e => ((a', b'), m, Some e)
          | None =>
              if negb (m =? length p)%nat then ((a', b'), m, Some ErrShortWrite)
              else ((a', b'), length p, None)
          end
    end.

Module io.

(** [io.Copy(dst, src)], the generic loop of [copyBuffer]: every non-empty
    read is written to [dst]; a write error or a short write ends the copy
    with that error, a read error ends it after the bytes read with it were
    written, and EOF ends it without error. *)
Fixpoint Copy {W : Type} `{Writer W} (dst : W) (src : Reader)
  : W * option error :=
  match src with
  | [] => (dst, None)
  | (buf, er) :: src' =>
      let '(dst', nw, ew) :=
        match buf with
        | [] => (dst, O, None)
        | _ => Write dst buf
        end in
      match ew with
      | Some e => (dst', Some e)
      | None =>
          if negb (nw =? length buf)%nat then (dst', Some ErrShortWrite)
          else match er with
               | ReadMore => Copy dst' src'
               | ReadEOF => (dst', None)
               | ReadFail => (dst', Some ErrRead)
               end
      end
  end.

(** The destination as it stands before the copy and after each of its
    iterations, oldest first: what an observer of the sinks can see while
    [Copy] runs. *)
Fixpoint CopyStates {W : Type} `{Writer W} (dst : W) (src : Reader)
  : list W :=
  dst ::
  match src with
  | [] => []
  | (buf, er) :: src' =>
      let '(dst', nw, ew) :=
        match buf with
        | [] => (dst, O, None)
        | _ => Write dst buf
        end in
      match ew with
      | Some e => [dst']
      | None =>
          if negb (nw =? length buf)%nat then [dst']
          else match er with
               | ReadMore => CopyStates dst' src'
               | ReadEOF => [dst']
               | ReadFail => [dst']
               end
      end
  end.

(** The bytes a reader delivers when it is read to its end. *)
Fixpoint ReadAll (src : Reader) : bytes :=
  match src with
  | [] => []
  | (buf, ReadMore) :: src' => buf ++ ReadAll src'
  | (buf, _) :: _ => buf
  end.

(** The reader reaches EOF without a failed [Read]. *)
Fixpoint ReadsThrough (src : Reader) : bool :=
  match src with
  | [] => true
  | (_, ReadMore) :: src' => ReadsThrough src'
  | (_, ReadEOF) :: _ => true
  | (_, ReadFail) :: _ => false
  end.

(** The room left takes all of [p]. *)
Definition Fits (r : room) (p : bytes) : Prop :=
  match r with
  | None => True
  | Some k => (length p ≤ k)%nat
  end.

End io.

(** ** Package [net/http]: the response writer *)

Module http.

Definition StatusBadRequest : Z := 400.
Definition StatusNotFound : Z := 404.
Definition StatusInternalServerError : Z := 500.

(** [http.ResponseWriter]: the header map (the entry the handler sets),
    the status line once it is written, the body bytes sent to the client,
    and the room left on the client connection. *)
Record ResponseWriter : Type := mkResponseWriter {
  contentType : string;
  status : option Z;
  sent : bytes;
  connRoom : room;
}.

Definition newResponseWriter (r : room) : ResponseWriter :=
  {| contentType := ""; status := None; sent := []; connRoom := r |}.

(** [w.Header().Set("Content-Type", v)] *)
Definition SetContentType (w : ResponseWriter) (v : string) : ResponseWriter :=
  {| contentType := v; status := status w; sent := sent w;
     connRoom := connRoom w |}.

(** [w.WriteHeader(code)]: a second call is ignored. *)
Definition WriteHeader (w : ResponseWriter) (code : Z) : ResponseWriter :=
  match status w with
  | Some _ => w
  | None => {| contentType := contentType w; status := Some code;
               sent := sent w; connRoom := connRoom w |}
  end.

(** [w.Write(p)]: the first write sends the status line, 200 unless
    [WriteHeader] was called. *)
Definition ResponseWrite (w : ResponseWriter) (p : bytes)
  : ResponseWriter * nat * option error :=
  let w1 := WriteHeader w 200 in
  let '(got, r', err) := takeRoom (connRoom w1) p in
  ({| contentType := contentType w1; status := status w1;
      sent := sent w1 ++ got; connRoom := r' |}, length got, err).

(** [http.Error(w, msg, code)]: a plain-text reply with the given status,
    the message and a newline. *)
Definition Error (w : ResponseWriter) (msg : string) (code : Z)
  : ResponseWriter :=
  let w1 := SetContentType w "text/plain; charset=utf-8" in
  let w2 := WriteHeader w1 code in
  fst (fst (ResponseWrite w2 (list_byte_of_string (msg ++ String "010" "")))).

(** The status the client reads once the handler has returned: the server
    sends 200 when the handler never wrote one. *)
Definition finalStatus (w : ResponseWriter) : Z := default 200%Z (status w).

(** The header fields the handler reads with [Header.Get]; a field that is
    absent reads as the empty string. *)
Record Header : Type := mkHeader {
  LastModified : string;
  ContentLength : string;
  Etag : string;
  ContentType : string;
}.

(** [*http.Response] of the upstream. *)
Record Response : Type := mkResponse {
  StatusCode : Z;
  Status : string;
  RespHeader : Header;
  Body : Reader;
}.

End http.

#[export] Instance ResponseWriter_Writer : Writer http.ResponseWriter :=
  http.ResponseWrite.

(** ** The metadata index: table [public.cacheitem] of [repoproxy.sql] *)

(** One row.  [rowid] is the only key the schema declares; the index on
    [(reponame, pathname)] is not unique. *)
Record cacheitem : Type := mkCacheitem {
  rowid : Z;
  reponame : string;
  pathname : string;
  lastmodified : string;
  filesize : Z;
  etag : string;
  updatedate : Z;
}.

(** What the program reads and writes: the rows of [cacheitem] in the order
    a scan returns them, the [bigserial] sequence behind [rowid], and the
    regular files and directories under the cache directory. *)
Record State : Type := mkState {
  rows : list cacheitem;
  nextRowid : Z;
  files : gmap string bytes;
  dirs : gset string;
}.

(** The result of [os.Stat] as the handler tells it apart: no error, an
    error for which [os.IsNotExist] holds, or any other error
    (permission denied, name too long, ...). *)
Inductive statErr : Type := StatNil | StatNotExist | StatOther.

(** The collaborators of one run, and the failures they may inject. *)
Record Env : Type := mkEnv {
  cacheDir : string;                       (* CACHE_DIR, or "/cache" *)
  repomap : gmap string string;            (* table repomap: reponame -> baseurl *)
  now : Z;                                 (* NOW() *)
  Head : string → option http.Header;      (* httpClient.Head; None is a transport error *)
  Get : string → option http.Response;     (* httpClient.Get; None is a transport error *)
  repomapFails : bool;                     (* the SELECT on repomap fails *)
  selectFails : bool;                      (* the SELECT of itemInCache fails *)
  countFails : bool;                       (* the SELECT COUNT of updateCache fails *)
  beginFails : bool;                       (* db.Begin fails *)
  execFails : bool;                        (* tx.Exec fails *)
  commitFails : bool;                      (* tx.Commit fails *)
  mkdirFails : string → bool;              (* os.Mkdir of this directory fails *)
  statFails : string → bool;               (* os.Stat fails, not with not-exist *)
  createFails : string → bool;             (* os.Create fails on this path *)
  clientRoom : room;                       (* bytes the client connection takes *)
  diskRoom : room;                         (* bytes the cache file takes *)
}.

Definition keyOf (repo itemPath : string) (r : cacheitem) : bool :=
  String.eqb (reponame r) repo && String.eqb (pathname r) itemPath.

(** [SELECT ... FROM cacheitem WHERE reponame = $1 AND pathname = $2] *)
Definition selectItems (st : State) (repo itemPath : string) : list cacheitem :=
  List.filter (keyOf repo itemPath) (rows st).

(** [QueryRow(...).Scan(...)]: the first row of the result, [ErrNoRows]
    when there is none, or the failure of the query. *)
Definition queryRow (fails : bool) (result : list cacheitem)
  : cacheitem + error :=
  if fails then inr ErrDB
  else match result with
       | r :: _ => inl r
       | [] => inr ErrNoRows
       end.

(** [func getRepoMap(repo string) (string, error)] *)
Definition getRepoMap (env : Env) (repo : string) : string * option error :=
  if repomapFails env then ("", Some ErrDB)
  else match repomap env !! repo with
       | Some baseURL => (baseURL, None)
       | None => ("", Some ErrNoRows)
       end.

(** [func itemInCache(repo, itemPath, lastMod string, fileSize int64,
    etag string) (bool, error)] *)
Definition itemInCache (env : Env) (st : State)
  (repo itemPath lastMod : string) (fileSize : Z) (etag_ : string)
  : bool * option error :=
  match queryRow (selectFails env) (selectItems st repo itemPath) with
  | inr _ => (false, None)
  | inl r =>
      if String.eqb (lastmodified r) lastMod
         && (filesize r =? fileSize)%Z
         && String.eqb (etag r) etag_
      then (true, None)
      else (false, None)
  end.

(** The row an INSERT appends: [rowid] comes from the sequence,
    [updatedate] from [NOW()]. *)
Definition inserted (env : Env) (st : State) (repo itemPath lastMod : string)
  (fileSize : Z) (etag_ : string) : cacheitem :=
  {| rowid := nextRowid st; reponame := repo; pathname := itemPath;
     lastmodified := lastMod; filesize := fileSize; etag := etag_;
     updatedate := now env |}.

(** [INSERT INTO cacheitem (reponame, pathname, lastmodified, filesize,
    etag, updatedate) VALUES ($1, $2, $3, $4, $5, NOW())] *)
Definition insertItem (env : Env) (st : State)
  (repo itemPath lastMod : string) (fileSize : Z) (etag_ : string) : State :=
  {| rows := rows st ++ [inserted env st repo itemPath lastMod fileSize etag_];
     nextRowid := (nextRowid st + 1)%Z;
     files := files st; dirs := dirs st |}.

(** The row an UPDATE leaves in place of [r]: the three fields and the
    date are set together. *)
Definition overwritten (env : Env) (lastMod : string) (fileSize : Z)
  (etag_ : string) (r : cacheitem) : cacheitem :=
  {| rowid := rowid r; reponame := reponame r; pathname := pathname r;
     lastmodified := lastMod; filesize := fileSize; etag := etag_;
     updatedate := now env |}.

(** [UPDATE cacheitem SET lastmodified = $1, filesize = $2, etag = $3,
    updatedate = NOW() WHERE reponame = $4 AND pathname = $5] *)
Definition updateItems (env : Env) (st : State)
  (repo itemPath lastMod : string) (fileSize : Z) (etag_ : string) : State :=
  {| rows := List.map (fun r =>
       if keyOf repo itemPath r
       then overwritten env lastMod fileSize etag_ r
       else r) (rows st);
     nextRowid := nextRowid st;
     files := files st; dirs := dirs st |}.

(** The first statement of [updateCache] (line 81):
    [SELECT COUNT( * ) FROM cacheitem WHERE reponame = $1 AND pathname = $2],
    run on the pool, before any transaction is open. *)
Definition countItems (st : State) (repo itemPath : string) : nat :=
  length (selectItems st repo itemPath).

(** The rest of [updateCache] (lines 86-105) for a [count] read earlier:
    a transaction holding the one INSERT or UPDATE that [count] selects.
    The error of [tx.Exec] is overwritten by that of [tx.Commit], which
    fails, rolling the statement back, when the statement had failed.  The
    line logged when [db.Begin] fails is in [updateCacheLog] below. *)
Definition writeItem (env : Env) (st : State) (count : nat)
  (repo itemPath lastMod : string) (fileSize : Z) (etag_ : string)
  : State * option error :=
  if beginFails env then (st, Some ErrDB)
  else
    let st' :=
      if (count =? 0)%nat
      then insertItem env st repo itemPath lastMod fileSize etag_
      else updateItems env st repo itemPath lastMod fileSize etag_ in
    if execFails env || commitFails env then (st, Some ErrDB)
    else (st', None).

(** [func updateCache(ctx, repo, itemPath, lastMod string, fileSize int64,
    etag string) error], run without another writer in between. *)
Definition updateCache (env : Env) (st : State)
  (repo itemPath lastMod : string) (fileSize : Z) (etag_ : string)
  : State * option error :=
  if countFails env then (st, Some ErrDB)
  else writeItem env st (countItems st repo itemPath)
         repo itemPath lastMod fileSize etag_.

(** *** Concurrent calls of [updateCache]

    Each request runs in a goroutine of its own, so calls of [updateCache]
    interleave at the statements they send to the database.  A call is at
    one of three points: before its COUNT, holding the count it read, or
    returned. *)
Record ucArgs : Type := mkUcArgs {
  ucRepo : string; ucPath : string; ucLastMod : string;
  ucSize : Z; ucEtag : string;
}.

Inductive ucPoint : Type :=
| UcStart
| UcCounted (count : nat)
| UcReturned (err : option error).

(** One database round of a call. *)
Definition ucStep (env : Env) (st : State) (a : ucArgs) (pc : ucPoint)
  : State * ucPoint :=
  match pc with
  | UcStart =>
      if countFails env then (st, UcReturned (Some ErrDB))
      else (st, UcCounted (countItems st (ucRepo a) (ucPath a)))
  | UcCounted count =>
      let '(st', err) :=
        writeItem env st count (ucRepo a) (ucPath a) (ucLastMod a)
          (ucSize a) (ucEtag a) in
      (st', UcReturned err)
  | UcReturned _ => (st, pc)
  end.

(** A schedule names, round by round, the call that moves. *)
Fixpoint ucRun (env : Env) (st : State) (calls : list (ucArgs * ucPoint))
  (schedule : list nat) : State * list (ucArgs * ucPoint) :=
  match schedule with
  | [] => (st, calls)
  | i :: schedule' =>
      match calls !! i with
      | None => ucRun env st calls schedule'
      | Some (a, pc) =>
          let '(st', pc') := ucStep env st a pc in
          ucRun env st' (<[i := (a, pc')]> calls) schedule'
      end
  end.

(** Every table state an observer can see while the schedule runs. *)
Fixpoint ucVisible (env : Env) (st : State) (calls : list (ucArgs * ucPoint))
  (schedule : list nat) : list (list cacheitem) :=
  rows st ::
  match schedule with
  | [] => []
  | i :: schedule' =>
      match calls !! i with
      | None => ucVisible env st calls schedule'
      | Some (a, pc) =>
          let '(st', pc') := ucStep env st a pc in
          ucVisible env st' (<[i := (a, pc')]> calls) schedule'
      end
  end.

(** Calls of [updateCache] one after the other, none starting before the
    one before it has returned. *)
Fixpoint ucSerial (env : Env) (st : State) (calls : list ucArgs) : State :=
  match calls with
  | [] => st
  | a :: calls' =>
      ucSerial env
        (updateCache env st (ucRepo a) (ucPath a) (ucLastMod a) (ucSize a)
           (ucEtag a)).1
        calls'
  end.

(** At most one row per [(reponame, pathname)]. *)
Definition oneRowPerKey (rs : list cacheitem) : Prop :=
  ∀ repo itemPath, (length (List.filter (keyOf repo itemPath) rs) ≤ 1)%nat.

(** ** The blob store: package [os] on the cache directory *)

Module os.

(** [path] without its trailing separators. *)
Fixpoint trimSeparators (path : string) : string :=
  match path with
  | EmptyString => EmptyString
  | String c rest =>
      match trimSeparators rest with
      | EmptyString => if Ascii.eqb c "/" then EmptyString else String c EmptyString
      | t => String c t
      end
  end.

(** The parent [os.MkdirAll] creates first: what comes before the last
    separator of the path (its trailing separators apart), when there is
    something before it. *)
Definition parent (path : string) : option string :=
  let j := filepath.lastSep (trimSeparators path) in
  if (1 <? j)%nat then Some (strings.take (j - 1) path) else None.

(** [os.Mkdir(path, 0755)], with the parent in place: fails on the empty
    path, on a path that exists, or when told to. *)
Definition Mkdir (env : Env) (st : State) (path : string)
  : State * option error :=
  if String.eqb path ""
     || mkdirFails env path
     || bool_decide (is_Some (files st !! path))
     || bool_decide (path ∈ dirs st)
  then (st, Some ErrFS)
  else ({| rows := rows st; nextRowid := nextRowid st; files := files st;
           dirs := {[ path ]} ∪ dirs st |}, None).

(** The recursion of [os.MkdirAll]: a directory that exists is left as it
    is, a regular file in its place is an error; otherwise the parent is
    made first, and then the directory itself.  What was made before a
    failure stays.  ([fuel] bounds the depth; a parent is shorter than its
    path.) *)
Fixpoint mkdirAllFrom (fuel : nat) (env : Env) (st : State) (path : string)
  : State * option error :=
  if bool_decide (path ∈ dirs st) then (st, None)
  else if bool_decide (is_Some (files st !! path)) then (st, Some ErrFS)
  else
    let '(st1, err) :=
      match fuel, parent path with
      | S fuel', Some up => mkdirAllFrom fuel' env st up
      | _, _ => (st, None)
      end in
    match err with
    | Some e => (st1, Some e)
    | None => Mkdir env st1 path
    end.

(** [os.MkdirAll(path, 0755)] *)
Definition MkdirAll (env : Env) (st : State) (path : string)
  : State * option error :=
  mkdirAllFrom (String.length path) env st path.

(** [os.Stat(path)], reduced to its error.  The empty path does not exist. *)
Definition Stat (env : Env) (st : State) (path : string) : statErr :=
  if String.eqb path "" then StatNotExist
  else if statFails env path then StatOther
  else if bool_decide (is_Some (files st !! path)) || bool_decide (path ∈ dirs st)
       then StatNil
       else StatNotExist.

(** [os.IsNotExist(err)] *)
Definition IsNotExist (e : statErr) : bool :=
  match e with StatNotExist => true | _ => false end.

(** An open [*os.File]: the files of the store, the path the handle was
    opened on, and the room left on the disk. *)
Record File : Type := mkFile {
  store : gmap string bytes;
  name : string;
  disk : room;
}.

(** [os.Create(path)]: creates the file or truncates it to length zero.
    Fails on the empty path, on a directory, when the parent directory is
    missing, or when told to. *)
Definition Create (env : Env) (st : State) (path : string) : option File :=
  if String.eqb path ""
     || createFails env path
     || bool_decide (path ∈ dirs st)
     || negb (bool_decide (filepath.Dir path ∈ dirs st))
  then None
  else Some {| store := <[path := []]> (files st); name := path;
               disk := diskRoom env |}.

(** [f.Write(p)]: appends to the file at the handle's path. *)
Definition FileWrite (f : File) (p : bytes) : File * nat * option error :=
  let '(got, r', err) := takeRoom (disk f) p in
  ({| store := <[name f := (default [] (store f !! name f) ++ got)%list]> (store f);
      name := name f; disk := r' |}, length got, err).

(** *** One file, several handles

    A [File] above is what a request sees of the store while it is the
    only writer of its path.  The file system itself keeps one file per
    path and, for every open handle, an offset of its own: [os.Create]
    ([O_CREATE|O_TRUNC], no [O_APPEND]) empties the file whoever else holds
    it open, and a write lands at the offset of its handle, past a gap of
    zero bytes when the file has become shorter than that. *)
Record Handle : Type := mkHandle {
  handlePath : string;
  offset : nat;
}.

(** The content of a file after [p] is written at offset [off]. *)
Definition writeAt (old : bytes) (off : nat) (p : bytes) : bytes :=
  match p with
  | [] => old
  | _ => (take off old ++ replicate (off - length old) Byte.x00 ++ p
          ++ drop (off + length p) old)%list
  end.

(** [os.Create(path)] on the shared store. *)
Definition CreateShared (fs : gmap string bytes) (path : string)
  : gmap string bytes * Handle :=
  (<[path := []]> fs, {| handlePath := path; offset := 0 |}).

(** [f.Write(p)] on the shared store, with room on the disk. *)
Definition WriteShared (fs : gmap string bytes) (h : Handle) (p : bytes)
  : gmap string bytes * Handle :=
  (<[handlePath h := writeAt (default [] (fs !! handlePath h)) (offset h) p]> fs,
   {| handlePath := handlePath h; offset := offset h + length p |}).

End os.

#[export] Instance File_Writer : Writer os.File := os.FileWrite.

(** [func prepareCacheDir(repo, itemPath string) (string, error)] *)
Definition prepareCacheDir (env : Env) (st : State) (repo itemPath : string)
  : State * string * option error :=
  let dirName := filepath.Dir itemPath in
  let cacheDirFullPath := filepath.Join [cacheDir env; repo; dirName] in
  match os.MkdirAll env st cacheDirFullPath with
  | (st', Some e) => (st', "", Some e)
  | (st', None) =>
      let cachePath := filepath.Join [cacheDir env; repo; itemPath] in
      (st', cachePath, None)
  end.

(** ** The handler *)

(** What a run leaves in the outside world besides the response: the
    upstream requests it made, the file it handed to [http.ServeFile], the
    lines it logged (by their tag) and the errors it reported to sentry. *)
Inductive event : Type :=
| EHead (url : string)
| EGet (url : string)
| EServeFile (path : string)
| ELog (tag : string)
| ECapture.

(** The statement at which [mainHandler] stops. *)
Inductive exit : Type :=
| Panic             (* line 139: index out of range *)
| ExitNotFound      (* line 145 *)
| ExitHeadError     (* line 153 *)
| ExitHit           (* line 175 *)
| ExitFetchError    (* line 184 *)
| ExitUpstreamError (* line 190 *)
| ExitCreateError   (* line 197 *)
| ExitStreamError   (* line 211 *)
| ExitEnd.          (* line 224 *)

Record result : Type := mkResult {
  stopped : exit;
  after : State;
  response : http.ResponseWriter;
  trace : list event;
}.

Record Request : Type := mkRequest { URLPath : string }.

(** The values read off the probe (lines 156-163). *)
Record probe : Type := mkProbe {
  lastMod : string;
  contentLength : Z;
  probeEtag : string;
  mimeType : string;
}.

Definition readProbe (h : http.Header) : probe :=
  {| lastMod := http.LastModified h;
     contentLength := fst (strconv.ParseInt (http.ContentLength h));
     probeEtag := http.Etag h;
     mimeType := if String.eqb (http.ContentType h) ""
                 then "application/octet-stream" else http.ContentType h |}.

Definition withFiles (st : State) (fs : gmap string bytes) : State :=
  {| rows := rows st; nextRowid := nextRowid st; files := fs;
     dirs := dirs st |}.

(** Lines 147-148: the mapped base URL without its trailing slash, a
    slash, and the rest of the path as it came. *)
Definition targetUrlOf (remoteBase rest : string) : string :=
  let remoteBase := strings.TrimSuffix remoteBase "/" in
  remoteBase ++ "/" ++ rest.

(** The condition of line 173, on the result of [itemInCache]. *)
Definition servesFromCache (env : Env) (st : State) (cachePath : string)
  (inCache : bool) : bool :=
  negb (os.IsNotExist (os.Stat env st cachePath)) && inCache.

(** What [updateCache] logs itself: line 89, [ERR_TXSTART], when the count
    has gone through and [db.Begin] fails. *)
Definition updateCacheLog (env : Env) : list event :=
  if countFails env then []
  else if beginFails env then [ELog "ERR_TXSTART"]
  else [].

(** Lines 178-224 of [mainHandler]: the MISS path. *)
Definition mainHandler_miss (env : Env) (st : State) (w : http.ResponseWriter)
  (repoName rest targetUrl cachePath : string) (p : probe)
  (tr : list event) : result :=
  let tr := (tr ++ [ELog "INFO_CACHE_MISS"; EGet targetUrl])%list in
  match Get env targetUrl with
  | None =>
      mkResult ExitFetchError st
        (http.Error w "FETCH ERROR" http.StatusInternalServerError)
        (tr ++ [ELog "ERR_GET"])
  | Some respGet =>
      if (http.StatusBadRequest <=? http.StatusCode respGet)%Z then
        mkResult ExitUpstreamError st
          (http.Error w ("UPSTREAM ERROR " ++ http.Status respGet)
             (http.StatusCode respGet))
          tr
      else
        match os.Create env st cachePath with
        | None =>
            mkResult ExitCreateError st
              (http.Error w "CACHE CREATE ERROR" http.StatusInternalServerError)
              (tr ++ [ELog "ERR_CREATECACHEPATH"])
        | Some file =>
            let tr := (tr ++ [ELog "DBG_HEAD"])%list in
            let respContentLastMod := http.LastModified (http.RespHeader respGet) in
            let respContentEtag := http.Etag (http.RespHeader respGet) in
            let respContentLengthRaw := http.ContentLength (http.RespHeader respGet) in
            let respContentLength := fst (strconv.ParseInt respContentLengthRaw) in
            let tr := (tr ++ [ELog "DBG_RESP"])%list in
            let w := http.SetContentType w (mimeType p) in
            let '((w, file), err) := io.Copy (w, file) (http.Body respGet) in
            let st := withFiles st (os.store file) in
            match err with
            | Some _ =>
                mkResult ExitStreamError st w (tr ++ [ELog "ERR_STREAM"])
            | None =>
                let respContentLength :=
                  if String.eqb respContentLengthRaw "" then contentLength p
                  else respContentLength in
                let respContentEtag := strings.TrimPrefix respContentEtag "W/" in
                let tr := (tr ++ [ELog "DBG_CACHEPAYLOAD"])%list in
                let '(st, err) :=
                  updateCache env st repoName rest respContentLastMod
                    respContentLength respContentEtag in
                match err with
                | Some _ =>
                    mkResult ExitEnd st w
                      (tr ++ updateCacheLog env ++ [ELog "ERR_UPDATECACHE"])
                | None => mkResult ExitEnd st w tr
                end
            end
        end
  end.

(** [func mainHandler(w http.ResponseWriter, r *http.Request)] *)
Definition mainHandler (env : Env) (st : State) (w : http.ResponseWriter)
  (r : Request) : result :=
  let repoUrl := strings.TrimPrefix (URLPath r) "/r/" in
  let path := strings.SplitN repoUrl "/" 2 in
  match path !! 0%nat, path !! 1%nat with
  | Some repoName, Some rest =>
      match getRepoMap env repoName with
      | (_, Some _) =>
          mkResult ExitNotFound st
            (http.Error w "NOT FOUND" http.StatusNotFound)
            [ELog "ERR_GETREPOMAP"; ECapture]
      | (remoteBase, None) =>
          let targetUrl := targetUrlOf remoteBase rest in
          match Head env targetUrl with
          | None =>
              mkResult ExitHeadError st
                (http.Error w "INTERNAL SERVER ERROR"
                   http.StatusInternalServerError)
                [EHead targetUrl; ELog "ERR_HEAD"]
          | Some respHead =>
              let p := readProbe respHead in
              let '(st, cachePath, err) := prepareCacheDir env st repoName rest in
              let tr := ([EHead targetUrl] ++
                match err with
                | Some _ => [ELog "ERR_PREPARECACHEPATH"]
                | None => []
                end)%list in
              let '(inCache, _) :=
                itemInCache env st repoName rest (lastMod p)
                  (contentLength p) (probeEtag p) in
              if servesFromCache env st cachePath inCache then
                mkResult ExitHit st w (tr ++ [EServeFile cachePath])
              else
                mainHandler_miss env st w repoName rest targetUrl cachePath p tr
          end
      end
  | _, _ => mkResult Panic st w []
  end.

(** ** Example collaborators

    The repository [pkgs] of the scenarios: it maps to
    [https://example.org/repo/], and [a/b.tar] is a three-byte file read in
    two chunks. *)

Definition exampleUrl : string := "https://example.org/repo/a/b.tar".

Definition exampleBody : Reader :=
  [ (["a"; "b"]%byte, ReadMore); (["c"]%byte, ReadEOF) ].

Definition exampleHeader (tag : string) : http.Header :=
  {| http.LastModified := "Mon"; http.ContentLength := "3";
     http.Etag := tag; http.ContentType := "" |}.

(** The upstream answers the probe and the fetch of [exampleUrl] with the
    entity tag [tag] and the status [code]; nothing fails, the client
    takes [client] bytes and the disk [disk_] bytes. *)
Definition exampleEnv (tag : string) (code : Z) (statusText : string)
  (client disk_ : room) : Env :=
  {| cacheDir := "/cache";
     repomap := {[ "pkgs" := "https://example.org/repo/" ]};
     now := 0;
     Head := fun u =>
       if String.eqb u exampleUrl then Some (exampleHeader tag) else None;
     Get := fun u =>
       if String.eqb u exampleUrl
       then Some {| http.StatusCode := code; http.Status := statusText;
                    http.RespHeader := exampleHeader tag;
                    http.Body := exampleBody |}
       else None;
     repomapFails := false; selectFails := false; countFails := false;
     beginFails := false; execFails := false; commitFails := false;
     mkdirFails := fun _ => false; statFails := fun _ => false;
     createFails := fun _ => false;
     clientRoom := client; diskRoom := disk_ |}.

(** Two fetches of the same key that read different versions upstream. *)
Definition fetchedMon : ucArgs :=
  {| ucRepo := "pkgs"; ucPath := "a/b.tar"; ucLastMod := "Mon";
     ucSize := 3; ucEtag := "abc" |}.

Definition fetchedTue : ucArgs :=
  {| ucRepo := "pkgs"; ucPath := "a/b.tar"; ucLastMod := "Tue";
     ucSize := 4; ucEtag := "xyz" |}.

(** Both calls count before either writes. *)
Definition bothCountFirst : list nat := [0; 1; 0; 1]%nat.

Definition emptyState : State :=
  {| rows := []; nextRowid := 1; files := ∅; dirs := ∅ |}.

Definition exampleRequest : Request := {| URLPath := "/r/pkgs/a/b.tar" |}.

(** The same collaborators, with [os.Stat] failing for a reason other than
    a missing file (a directory the process may not search). *)
Definition statDenied (env : Env) : Env :=
  {| cacheDir := cacheDir env; repomap := repomap env; now := now env;
     Head := Head env; Get := Get env;
     repomapFails := repomapFails env; selectFails := selectFails env;
     countFails := countFails env; beginFails := beginFails env;
     execFails := execFails env; commitFails := commitFails env;
     mkdirFails := mkdirFails env; statFails := fun _ => true;
     createFails := createFails env;
     clientRoom := clientRoom env; diskRoom := diskRoom env |}.

(** Nothing fails and the entity tag is strong. *)
Definition envOk : Env := exampleEnv "abc" 200 "200 OK" None None.

(** The upstream sends a weak entity tag. *)
Definition envWeak : Env := exampleEnv "W/abc" 200 "200 OK" None None.

(** The upstream refuses the full fetch. *)
Definition env503 : Env :=
  exampleEnv "abc" 503 "503 Service Unavailable" None None.

(** The client goes away after two bytes. *)
Definition envClientGone : Env := exampleEnv "abc" 200 "200 OK" (Some 2%nat) None.

(** The disk takes one more byte. *)
Definition envDiskFull : Env := exampleEnv "abc" 200 "200 OK" None (Some 1%nat).

(** The index holds the descriptor of [a/b.tar]; the blob store is empty. *)
Definition descriptorOnly : State :=
  {| rows := [ {| rowid := 1; reponame := "pkgs"; pathname := "a/b.tar";
                  lastmodified := "Mon"; filesize := 3; etag := "abc";
                  updatedate := 0 |} ];
     nextRowid := 2; files := ∅; dirs := ∅ |}.

Definition examplePath : string := "/cache/pkgs/a/b.tar".

(** One request against [env], with a fresh response writer. *)
Definition serve (env : Env) (st : State) (r : Request) : result :=
  mainHandler env st (http.newResponseWriter (clientRoom env)) r.

(** ** [getClientIP]

    The request fields it reads are its arguments: the first value of the
    [X-Forwarded-For] header ([""] when absent) and [r.RemoteAddr].  The two
    library functions it calls on them, [strings.TrimSpace] and
    [netip.ParseAddrPort] followed by [String] ([None] when the address
    does not parse), are taken as given. *)

(** [strings.Split(s, sep)] for a non-empty [sep]: cut at every instance
    of [sep].  ([genSplit] allows as many cuts as [sep] occurs in [s],
    which is at most the length of [s].) *)
Definition strings_Split (s sep : string) : list string :=
  strings.splitLoop (String.length s) s sep.

Section ClientIP.

Variable TrimSpace : string → string.
Variable ParseAddrPort : string → option string.

(** [func getClientIP(r *http.Request) string] *)
Definition getClientIP (forwardedFor remoteAddr : string) : string :=
  let fromRemoteAddr :=
    match ParseAddrPort remoteAddr with
    | Some ip => ip
    | None => remoteAddr
    end in
  if negb (String.eqb forwardedFor "") then
    let ips := strings_Split forwardedFor "," in
    if (0 <? length ips)%nat then
      match ips !! 0%nat with
      | Some ip0 => TrimSpace ip0
      | None => fromRemoteAddr    (* ips[0] with len(ips) > 0: not reached *)
      end
    else fromRemoteAddr
  else fromRemoteAddr.

End ClientIP.

(** ** Reading a run *)

(** The descriptor the MISS path hands to [updateCache] (lines 202-217):
    the validators of the GET response, the probe's content length when
    the GET response carries none, and the entity tag without one leading
    [W/]. *)
Definition persistedLastMod (respGet : http.Response) : string :=
  http.LastModified (http.RespHeader respGet).

Definition persistedSize (p : probe) (respGet : http.Response) : Z :=
  if String.eqb (http.ContentLength (http.RespHeader respGet)) ""
  then contentLength p
  else (strconv.ParseInt (http.ContentLength (http.RespHeader respGet))).1.

Definition persistedEtag (respGet : http.Response) : string :=
  strings.TrimPrefix (http.Etag (http.RespHeader respGet)) "W/".

(** The trace of a MISS up to the copy. *)
Definition missTrace (tr : list event) (targetUrl : string) : list event :=
  (tr ++ [ELog "INFO_CACHE_MISS"; EGet targetUrl])%list.

(** The upstream requests a trace holds: probes and full fetches. *)
Definition probes (tr : list event) : list string :=
  omap (fun e => match e with EHead u => Some u | _ => None end) tr.

Definition fetches (tr : list event) : list string :=
  omap (fun e => match e with EGet u => Some u | _ => None end) tr.

(** The database refuses every COMMIT. *)
Definition envNoCommit : Env :=
  {| cacheDir := cacheDir envOk; repomap := repomap envOk; now := now envOk;
     Head := Head envOk; Get := Get envOk;
     repomapFails := false; selectFails := false; countFails := false;
     beginFails := false; execFails := false; commitFails := true;
     mkdirFails := mkdirFails envOk; statFails := statFails envOk;
     createFails := createFails envOk;
     clientRoom := None; diskRoom := None |}.

(** The directory of the blob cannot be made; the ones above it can. *)
Definition envNoMkdir : Env :=
  {| cacheDir := cacheDir envOk; repomap := repomap envOk; now := now envOk;
     Head := Head envOk; Get := Get envOk;
     repomapFails := false; selectFails := false; countFails := false;
     beginFails := false; execFails := false; commitFails := false;
     mkdirFails := fun path => String.eqb path "/cache/pkgs/a";
     statFails := statFails envOk;
     createFails := createFails envOk;
     clientRoom := None; diskRoom := None |}.

(** The database opens no transaction. *)
Definition envNoBegin : Env :=
  {| cacheDir := cacheDir envOk; repomap := repomap envOk; now := now envOk;
     Head := Head envOk; Get := Get envOk;
     repomapFails := false; selectFails := false; countFails := false;
     beginFails := true; execFails := false; commitFails := false;
     mkdirFails := mkdirFails envOk; statFails := statFails envOk;
     createFails := createFails envOk;
     clientRoom := None; diskRoom := None |}.

(** The answer of the upstream to the fetch of the scenarios. *)
Definition exampleResponse : http.Response :=
  {| http.StatusCode := 200; http.Status := "200 OK";
     http.RespHeader := exampleHeader "abc"; http.Body := exampleBody |}.

(** ** Requests that share a cache path

    Every request runs in a goroutine of its own and nothing in
    [mainHandler] keeps two of them off one cache path.  The blob store
    they share, with the file operations of the MISS path as its steps. *)

(** The file operations of one MISS: [os.Create] at line 193, then one
    write for every non-empty chunk that [io.Copy] reads at line 208. *)
Inductive fileOp : Type :=
| FCreate
| FWrite (p : bytes).

Fixpoint copyWrites (src : Reader) : list fileOp :=
  match src with
  | [] => []
  | (buf, er) :: src' =>
      (match buf with [] => [] | _ => [FWrite buf] end
       ++ match er with ReadMore => copyWrites src' | _ => [] end)%list
  end.

Definition blobOps (src : Reader) : list fileOp := FCreate :: copyWrites src.

(** A request on its way through them: its handle, once it has one, and
    the operations it has still to do. *)
Definition blobWriter : Type := option os.Handle * list fileOp.

(** Request [i] does its next file operation on [path]. *)
Definition blobStep (path : string)
  (s : gmap string bytes * list blobWriter) (i : nat)
  : gmap string bytes * list blobWriter :=
  let '(fs, ws) := s in
  match ws !! i with
  | Some (_, FCreate :: ops) =>
      let '(fs', h) := os.CreateShared fs path in
      (fs', <[i := (Some h, ops)]> ws)
  | Some (Some h, FWrite p :: ops) =>
      let '(fs', h') := os.WriteShared fs h p in
      (fs', <[i := (Some h', ops)]> ws)
  | _ => s
  end.

(** The operations in the order of a schedule. *)
Definition blobRun (path : string) (sched : list nat)
  (s : gmap string bytes * list blobWriter)
  : gmap string bytes * list blobWriter :=
  fold_left (blobStep path) sched s.

(** A request alone: all of its operations, one after the other. *)
Definition blobAlone (path : string) (fs : gmap string bytes) (src : Reader)
  : gmap string bytes :=
  (blobRun path (replicate (length (blobOps src)) 0%nat)
     (fs, [(None, blobOps src)])).1.

(** The first request has its first chunk in the file when the second
    creates it; the client of the second is gone before a byte of the body
    is sent, so that the second writes nothing. *)
Definition truncatedUnderWriter : gmap string bytes * list blobWriter :=
  blobRun examplePath [0; 0; 1; 0]%nat
    (∅, [(None, blobOps exampleBody); (None, [FCreate])]).

(** * Properties *)

(** ** The library functions on the scenarios' inputs *)

Example TrimPrefix_route :
  strings.TrimPrefix "/r/pkgs/a/b.tar" "/r/" = "pkgs/a/b.tar".
Proof. reflexivity. Qed.

Example SplitN_route :
  strings.SplitN "pkgs/a/b.tar" "/" 2 = ["pkgs"; "a/b.tar"].
Proof. reflexivity. Qed.

Example SplitN_lone : strings.SplitN "pkgs" "/" 2 = ["pkgs"].
Proof. reflexivity. Qed.

Example TrimSuffix_base :
  strings.TrimSuffix "https://example.org/repo/" "/" = "https://example.org/repo".
Proof. reflexivity. Qed.

Example ParseInt_samples :
  strconv.ParseInt "100" = (100%Z, false)
  ∧ strconv.ParseInt "-12" = ((-12)%Z, false)
  ∧ strconv.ParseInt "12a" = (0%Z, true)
  ∧ strconv.ParseInt "" = (0%Z, true)
  ∧ strconv.ParseInt "9223372036854775808" = (9223372036854775807%Z, true).
Proof. repeat split; reflexivity. Qed.

(** The range error is raised at the digit that overflows: what follows
    it is not read. *)
Example ParseInt_range_before_syntax :
  strconv.ParseInt "99999999999999999999x" = (9223372036854775807%Z, true)
  ∧ strconv.ParseInt "-99999999999999999999x" = ((-9223372036854775808)%Z, true)
  ∧ strconv.ParseInt "9x9999999999999999999" = (0%Z, true).
Proof. repeat split; reflexivity. Qed.

Example filepath_samples :
  filepath.Join ["/cache"; "pkgs"; "a/b.tar"] = "/cache/pkgs/a/b.tar"
  ∧ filepath.Join ["/cache"; "pkgs"; "a/../../x//y/."] = "/cache/x/y"
  ∧ filepath.Dir "a/b.tar" = "a"
  ∧ filepath.Dir "b.tar" = "."
  ∧ filepath.Dir "/b.tar" = "/".
Proof. repeat split; reflexivity. Qed.

(** ** The database log and the file system on the scenarios' inputs *)

(** A transaction that cannot be opened is logged twice: by [updateCache]
    and by the handler.  The request ends as any other MISS, with the blob
    and without a descriptor. *)
Example failed_begin_is_logged_twice :
  let res := serve envNoBegin emptyState exampleRequest in
  trace res
  = [EHead exampleUrl; ELog "INFO_CACHE_MISS"; EGet exampleUrl; ELog "DBG_HEAD";
     ELog "DBG_RESP"; ELog "DBG_CACHEPAYLOAD"; ELog "ERR_TXSTART";
     ELog "ERR_UPDATECACHE"]
  ∧ stopped res = ExitEnd
  ∧ rows (after res) = []
  ∧ files (after res) !! examplePath = Some (io.ReadAll exampleBody).
Proof. vm_compute. repeat split; reflexivity. Qed.

(** [os.MkdirAll] makes the missing directories from the top; the ones made
    before a failure stay, and a regular file on the way is an error. *)
Example MkdirAll_samples :
  let made := os.MkdirAll envOk emptyState "/cache/pkgs/a" in
  let half := os.MkdirAll envNoMkdir emptyState "/cache/pkgs/a" in
  let blocked :=
    os.MkdirAll envOk
      (withFiles made.1 (<["/cache/pkgs/a/b.tar" := []]> ∅)) "/cache/pkgs/a/b.tar/c" in
  made.2 = None
  ∧ bool_decide (dirs made.1 = {[ "/cache"; "/cache/pkgs"; "/cache/pkgs/a" ]}) = true
  ∧ os.MkdirAll envNoMkdir made.1 "/cache/pkgs/a" = (made.1, None)
  ∧ half.2 = Some ErrFS
  ∧ bool_decide (dirs half.1 = {[ "/cache"; "/cache/pkgs" ]}) = true
  ∧ blocked.2 = Some ErrFS
  ∧ bool_decide (dirs blocked.1 = dirs made.1) = true.
Proof. vm_compute. repeat split; reflexivity. Qed.

(** ** Routing *)

Lemma Contains_false_Index s sep :
  strings.Contains s sep = false → strings.Index s sep = None.
Proof.
  unfold strings.Contains. destruct (strings.Index s sep); congruence.
Qed.

Lemma SplitN_no_separator s sep k :
  strings.Contains s sep = false → strings.SplitN s sep (S k) = [s].
Proof.
  intros Hc. apply Contains_false_Index in Hc.
  destruct k as [|k]; simpl; [reflexivity|]. now rewrite Hc.
Qed.

(** A path holds no ["/"] for [strings.Contains] exactly when none of its
    bytes is the separator. *)
Lemma Contains_slash s :
  strings.Contains s "/" = false ↔ ¬ In "/"%char (list_ascii_of_string s).
Proof.
  unfold strings.Contains. induction s as [|c s IH]; simpl.
  - split; [tauto | reflexivity].
  - destruct (Ascii.eqb_spec c "/") as [->|Hne].
    + split; [discriminate | intros H; exfalso; apply H; now left].
    + destruct (strings.Index s "/") as [n|] eqn:Hi; simpl.
      * split; [discriminate|]. intros H. exfalso.
        destruct IH as [_ IH]. 
        assert (Hn : ¬ In "/"%char (list_ascii_of_string s)) by tauto.
        specialize (IH Hn). discriminate.
      * split; [|reflexivity]. intros _ [Heq|Hin]; [congruence|].
        destruct IH as [IH _]. now apply IH.
Qed.

(** C10.  When the URL path, once [/r/] is trimmed off its front, holds no
    [/], [SplitN] returns a single piece, [path[1]] is out of range, and the
    handler panics at line 139: nothing is written to the response, no
    collaborator is called and the state is untouched. *)
Theorem C10_no_separator_panics (env : Env) (st : State)
  (w : http.ResponseWriter) (r : Request) :
  strings.Contains (strings.TrimPrefix (URLPath r) "/r/") "/" = false →
  let path := strings.SplitN (strings.TrimPrefix (URLPath r) "/r/") "/" 2 in
  length path = 1%nat
  ∧ path !! 1%nat = None
  ∧ mainHandler env st w r = mkResult Panic st w [].
Proof.
  intros Hc path. subst path.
  unfold mainHandler. rewrite (SplitN_no_separator _ _ 1 Hc).
  repeat split.
Qed.

(** [GET /r/pkgs] panics. *)
Lemma C10_no_separator_panics_witness :
  strings.Contains (strings.TrimPrefix "/r/pkgs" "/r/") "/" = false
  ∧ mainHandler (exampleEnv "abc" 200 "200 OK" None None) emptyState
      (http.newResponseWriter None) {| URLPath := "/r/pkgs" |}
    = mkResult Panic emptyState (http.newResponseWriter None) [].
Proof.
  split; [reflexivity|].
  apply (C10_no_separator_panics (exampleEnv "abc" 200 "200 OK" None None)
           emptyState (http.newResponseWriter None) {| URLPath := "/r/pkgs" |}).
  reflexivity.
Defined.

(** ** The stream copy *)

Lemma takeRoom_spec (r : room) (p : bytes) :
  ∃ got r' err,
    takeRoom r p = (got, r', err)
    ∧ got `prefix_of` p
    ∧ (err = None ↔ io.Fits r p)
    ∧ (err = None → got = p ∧ ∀ q, io.Fits r' q ↔ io.Fits r (p ++ q)%list).
Proof.
  destruct r as [k|]; simpl.
  - destruct (Nat.leb_spec (length p) k) as [Hle|Hgt].
    + exists p, (Some (k - length p)%nat), None. repeat split; auto.
      * simpl in *. rewrite length_app. lia.
      * simpl in *. rewrite length_app in *. lia.
    + exists (firstn k p), (Some O), (Some ErrWrite). repeat split.
      * exists (skipn k p). symmetry. apply firstn_skipn.
      * discriminate.
      * intros H. lia.
      * discriminate.
      * discriminate.
      * discriminate.
  - exists p, None, None. repeat split; auto.
Qed.

(** The generic loop stops where the states it passes through stop. *)
Lemma CopyStates_last {W : Type} `{Writer W} (dst : W) (src : Reader) :
  last (io.CopyStates dst src) = Some (io.Copy dst src).1.
Proof.
  revert dst. induction src as [|[buf er] src IH]; intros dst; [reflexivity|].
  cbn [io.CopyStates io.Copy].
  destruct (match buf with [] => (dst, 0%nat, None) | _ :: _ => Write dst buf end)
    as [[dst' nw] [e|]]; [reflexivity|].
  destruct (negb (nw =? length buf)%nat); [reflexivity|].
  destruct er; try reflexivity.
  rewrite <- IH. destruct (io.CopyStates dst' src) eqn:E; [|reflexivity].
  destruct src as [|[? ?] ?]; discriminate.
Qed.

(** One write through [io.MultiWriter(w, file)]: the client is served
    first; the file gets the chunk only when the client took all of it. *)
Lemma tee_Write (w : http.ResponseWriter) (f : os.File) (p c : bytes) :
  os.store f !! os.name f = Some c →
  ∃ w' f' n err dw df,
    Write (w, f) p = ((w', f'), n, err)
    ∧ http.sent w' = (http.sent w ++ dw)%list
    ∧ http.contentType w' = http.contentType w
    ∧ http.finalStatus w' = http.finalStatus w
    ∧ os.store f' = <[os.name f := (c ++ df)%list]> (os.store f)
    ∧ os.name f' = os.name f
    ∧ df `prefix_of` dw
    ∧ dw `prefix_of` p
    ∧ (¬ io.Fits (http.connRoom w) p → df = [])
    ∧ (err = None ↔ io.Fits (http.connRoom w) p ∧ io.Fits (os.disk f) p)
    ∧ (err = None →
         n = length p ∧ dw = p ∧ df = p
         ∧ (∀ q, io.Fits (http.connRoom w') q ↔ io.Fits (http.connRoom w) (p ++ q)%list)
         ∧ (∀ q, io.Fits (os.disk f') q ↔ io.Fits (os.disk f) (p ++ q)%list)).
Proof.
  intros Hc.
  assert (Hst : default 200%Z (http.status (http.WriteHeader w 200))
                = http.finalStatus w).
  { unfold http.WriteHeader, http.finalStatus.
    destruct (http.status w) eqn:E; simpl; rewrite ?E; reflexivity. }
  assert (Hid : os.store f = <[os.name f := (c ++ [])%list]> (os.store f)).
  { rewrite app_nil_r. symmetry. now apply insert_id. }
  unfold Write at 1, MultiWriter.
  unfold Write at 1, ResponseWriter_Writer, http.ResponseWrite.
  destruct (takeRoom_spec (http.connRoom (http.WriteHeader w 200)) p)
    as (got & r' & err & Ht & Hpre & Hfit & Hok).
  assert (Hroom : http.connRoom (http.WriteHeader w 200) = http.connRoom w).
  { unfold http.WriteHeader. destruct (http.status w); reflexivity. }
  assert (Hsent : http.sent (http.WriteHeader w 200) = http.sent w).
  { unfold http.WriteHeader. destruct (http.status w); reflexivity. }
  assert (Hct : http.contentType (http.WriteHeader w 200) = http.contentType w).
  { unfold http.WriteHeader. destruct (http.status w); reflexivity. }
  rewrite Ht. rewrite Hroom in *.
  destruct err as [e|].
  - (* the client connection fails: the file is not written *)
    eexists _, f, _, _, got, []. split; [reflexivity|].
    split_and!; simpl; rewrite ?Hsent; auto.
    + apply prefix_nil.
    + split; [discriminate|]. intros [H _]. apply Hfit in H. discriminate.
    + discriminate.
  - destruct (Hok eq_refl) as [-> Hrest].
    rewrite Nat.eqb_refl. cbn [negb].
    unfold Write at 1, File_Writer, os.FileWrite.
    destruct (takeRoom_spec (os.disk f) p)
      as (got2 & r2 & err2 & Ht2 & Hpre2 & Hfit2 & Hok2).
    rewrite Ht2, Hc. cbn [default].
    assert (Hclient : io.Fits (http.connRoom w) p) by now apply Hfit.
    destruct err2 as [e2|].
    + eexists _, _, _, _, p, got2. split; [reflexivity|].
      split_and!; simpl; rewrite ?Hsent; auto.
      * intros H. now exfalso.
      * split; [discriminate|]. intros [_ H]. apply Hfit2 in H. discriminate.
      * discriminate.
    + destruct (Hok2 eq_refl) as [-> Hrest2].
      rewrite Nat.eqb_refl. cbn [negb].
      eexists _, _, _, _, p, p. split; [reflexivity|].
      split_and!; simpl; rewrite ?Hsent; auto.
      * intros H. now exfalso.
      * split; auto. intros _. split; [assumption | now apply Hfit2].
Qed.

Lemma Fits_prefix (r : room) (p q : bytes) :
  p `prefix_of` q → io.Fits r q → io.Fits r p.
Proof.
  intros [k ->]. destruct r as [n|]; simpl; [|auto].
  rewrite length_app. lia.
Qed.

Lemma ReadAll_head (buf : bytes) (er : readEnd) (src : Reader) :
  buf `prefix_of` io.ReadAll ((buf, er) :: src).
Proof.
  destruct er; simpl; try reflexivity. now exists (io.ReadAll src).
Qed.

Lemma Fits_nil (r : room) : io.Fits r [].
Proof. destruct r; simpl; [lia | exact I]. Qed.

Ltac copy_side :=
  simpl; auto; try discriminate;
  try (now rewrite app_nil_r);
  try (rewrite app_nil_r; symmetry; now apply insert_id).

(** The whole copy through [io.MultiWriter(w, file)].  Whatever fails, the
    file holds a prefix of what the client was sent, and the client was sent
    a prefix of the body, in the body's order; the copy ends without error
    exactly when the body reads through and both sinks have room for all of
    it, and then both hold all of it. *)
Lemma Copy_tee (src : Reader) :
  ∀ (w : http.ResponseWriter) (f : os.File) (c : bytes),
  os.store f !! os.name f = Some c →
  ∃ w' f' err dw df,
    io.Copy (w, f) src = ((w', f'), err)
    ∧ http.sent w' = (http.sent w ++ dw)%list
    ∧ http.contentType w' = http.contentType w
    ∧ http.finalStatus w' = http.finalStatus w
    ∧ os.store f' = <[os.name f := (c ++ df)%list]> (os.store f)
    ∧ os.name f' = os.name f
    ∧ df `prefix_of` dw
    ∧ dw `prefix_of` io.ReadAll src
    ∧ (err = None ↔
         io.ReadsThrough src = true
         ∧ io.Fits (http.connRoom w) (io.ReadAll src)
         ∧ io.Fits (os.disk f) (io.ReadAll src))
    ∧ (err = None → dw = io.ReadAll src ∧ df = io.ReadAll src).
Proof.
  induction src as [|[buf er] src IH]; intros w f c Hc.
  - exists w, f, None, [], []. split; [reflexivity|].
    split_and!; copy_side.
    split; auto. intros _. split_and!; auto; apply Fits_nil.
  - cbn [io.Copy]. destruct buf as [|b buf'].
    + (* an empty read: nothing is written *)
      cbn [negb Nat.eqb length].
      destruct er.
      * destruct (IH w f c Hc)
          as (w' & f' & err & dw & df & HC & Hs & Hct & Hfs & Hst & Hn & Hp1 & Hp2 & Hiff & Hall).
        exists w', f', err, dw, df. split_and!; auto.
      * exists w, f, None, [], []. split; [reflexivity|].
        split_and!; copy_side.
        split; auto. intros _. split_and!; auto; apply Fits_nil.
      * exists w, f, (Some ErrRead), [], []. split; [reflexivity|].
        split_and!; copy_side.
        split; [discriminate|]. intros [H _]. discriminate.
    + destruct (tee_Write w f (b :: buf') c Hc)
        as (w1 & f1 & n & err & dw & df & HW & Hs & Hct & Hfs & Hst & Hn & Hp1 & Hp2 & Hcl & Hiff & Hall).
      rewrite HW. destruct err as [e|].
      * (* a sink fails: the copy stops with this write *)
        exists w1, f1, (Some e), dw, df. split; [reflexivity|].
        split_and!; auto; try discriminate.
        -- etrans; [exact Hp2 | apply ReadAll_head].
        -- split; [discriminate|]. intros (_ & H1 & H2).
           assert (Some e = None) as Habs; [|discriminate].
           apply Hiff. split; eapply Fits_prefix; eauto using ReadAll_head.
      * destruct (Hall eq_refl) as (-> & -> & -> & Hr1 & Hr2).
        rewrite Nat.eqb_refl. cbn [negb].
        destruct er.
        -- assert (Hc1 : os.store f1 !! os.name f1 = Some (c ++ b :: buf')%list).
           { rewrite Hst, Hn. apply lookup_insert_eq. }
           destruct (IH w1 f1 _ Hc1)
             as (w' & f' & err & dw & df & HC & Hs' & Hct' & Hfs' & Hst' & Hn' & Hp1' & Hp2' & Hiff' & Hall').
           exists w', f', err, ((b :: buf') ++ dw)%list, ((b :: buf') ++ df)%list.
           split; [exact HC|]. split_and!.
           ++ rewrite Hs', Hs. now rewrite <- app_assoc.
           ++ congruence.
           ++ congruence.
           ++ rewrite Hst', Hn, Hst, insert_insert_eq. now rewrite <- app_assoc.
           ++ congruence.
           ++ now apply prefix_app.
           ++ cbn [io.ReadAll]. now apply prefix_app.
           ++ cbn [io.ReadAll io.ReadsThrough]. rewrite Hiff'.
              rewrite (Hr1 (io.ReadAll src)), (Hr2 (io.ReadAll src)). tauto.
           ++ intros He. destruct (Hall' He) as [-> ->]. split; reflexivity.
        -- exists w1, f1, None, (b :: buf'), (b :: buf'). split; [reflexivity|].
           split_and!; auto.
           split; auto. intros _. cbn [io.ReadAll io.ReadsThrough].
           destruct Hiff as [Hiff _]. specialize (Hiff eq_refl). tauto.
        -- exists w1, f1, (Some ErrRead), (b :: buf'), (b :: buf').
           split; [reflexivity|]. split_and!; auto; try discriminate.
           split; [discriminate|]. intros [H _]. discriminate.
Qed.

(** While the copy runs, the file at the handle's path holds, at every
    point, what it held before followed by a prefix of the body. *)
Lemma CopyStates_tee (src : Reader) :
  ∀ (w : http.ResponseWriter) (f : os.File) (c : bytes),
  os.store f !! os.name f = Some c →
  ∀ s, s ∈ io.CopyStates (w, f) src →
  ∃ d, os.store s.2 = <[os.name f := (c ++ d)%list]> (os.store f)
       ∧ os.name s.2 = os.name f
       ∧ d `prefix_of` io.ReadAll src.
Proof.
  assert (Hhere : ∀ (w : http.ResponseWriter) (f : os.File) (c : bytes) src0,
    os.store f !! os.name f = Some c →
    ∃ d, os.store (w, f).2 = <[os.name f := (c ++ d)%list]> (os.store f)
         ∧ os.name (w, f).2 = os.name f ∧ d `prefix_of` io.ReadAll src0).
  { intros w f c src0 Hc. exists []. split_and!; copy_side. apply prefix_nil. }
  induction src as [|[buf er] src IH]; intros w f c Hc s Hin.
  - apply list_elem_of_singleton in Hin as ->. now apply Hhere.
  - cbn [io.CopyStates] in Hin. apply elem_of_cons in Hin as [->|Hin].
    { now apply Hhere. }
    destruct buf as [|b buf'].
    + cbn [negb Nat.eqb length] in Hin. destruct er.
      * destruct (IH w f c Hc s Hin) as (d & H1 & H2 & H3).
        exists d. split_and!; auto.
      * apply list_elem_of_singleton in Hin as ->. now apply Hhere.
      * apply list_elem_of_singleton in Hin as ->. now apply Hhere.
    + destruct (tee_Write w f (b :: buf') c Hc)
        as (w1 & f1 & n & err & dw & df & HW & Hs & Hct & Hfs & Hst & Hn & Hp1 & Hp2 & Hcl & Hiff & Hall).
      rewrite HW in Hin.
      assert (Hone : ∃ d, os.store (w1, f1).2 = <[os.name f := (c ++ d)%list]> (os.store f)
                ∧ os.name (w1, f1).2 = os.name f
                ∧ d `prefix_of` io.ReadAll ((b :: buf', er) :: src)).
      { exists df. split_and!; auto.
        etrans; [exact Hp1|]. etrans; [exact Hp2 | apply ReadAll_head]. }
      destruct err as [e|].
      * apply list_elem_of_singleton in Hin as ->. exact Hone.
      * destruct (Hall eq_refl) as (-> & -> & -> & Hr1 & Hr2).
        rewrite Nat.eqb_refl in Hin. cbn [negb] in Hin.
        destruct er; try (apply list_elem_of_singleton in Hin as ->; exact Hone).
        assert (Hc1 : os.store f1 !! os.name f1 = Some (c ++ b :: buf')%list).
        { rewrite Hst, Hn. apply lookup_insert_eq. }
        destruct (IH w1 f1 _ Hc1 s Hin) as (d & H1 & H2 & H3).
        exists ((b :: buf') ++ d)%list. split_and!.
        -- rewrite H1, Hn, Hst, insert_insert_eq. now rewrite <- app_assoc.
        -- congruence.
        -- cbn [io.ReadAll]. now apply prefix_app.
Qed.

(** ** The metadata index *)

Lemma keyOf_spec (repo itemPath : string) (r : cacheitem) :
  keyOf repo itemPath r = true ↔ reponame r = repo ∧ pathname r = itemPath.
Proof.
  unfold keyOf. rewrite andb_true_iff, !String.eqb_eq. tauto.
Qed.

Lemma keyOf_other (repo itemPath repo' itemPath' : string) (r : cacheitem) :
  (repo', itemPath') ≠ (repo, itemPath) →
  keyOf repo itemPath r = true → keyOf repo' itemPath' r = false.
Proof.
  intros Hne [H1 H2]%keyOf_spec.
  destruct (keyOf repo' itemPath' r) eqn:E; [|reflexivity].
  apply keyOf_spec in E as [H3 H4]. exfalso. apply Hne. congruence.
Qed.

Lemma select_insert_same env st repo itemPath lastMod fileSize etag_ :
  selectItems (insertItem env st repo itemPath lastMod fileSize etag_) repo itemPath
  = (selectItems st repo itemPath
     ++ [inserted env st repo itemPath lastMod fileSize etag_])%list.
Proof.
  unfold selectItems, insertItem; simpl. rewrite List.filter_app. simpl.
  unfold keyOf at 2; simpl. now rewrite !String.eqb_refl.
Qed.

Lemma select_insert_other env st repo itemPath lastMod fileSize etag_ repo' itemPath' :
  (repo', itemPath') ≠ (repo, itemPath) →
  selectItems (insertItem env st repo itemPath lastMod fileSize etag_) repo' itemPath'
  = selectItems st repo' itemPath'.
Proof.
  intros Hne. unfold selectItems, insertItem; simpl. rewrite List.filter_app. simpl.
  rewrite (keyOf_other repo itemPath repo' itemPath'); auto.
  - now rewrite app_nil_r.
  - apply keyOf_spec. now split.
Qed.

Lemma select_update_same env st repo itemPath lastMod fileSize etag_ :
  selectItems (updateItems env st repo itemPath lastMod fileSize etag_) repo itemPath
  = List.map (overwritten env lastMod fileSize etag_) (selectItems st repo itemPath).
Proof.
  unfold selectItems, updateItems; simpl.
  induction (rows st) as [|r rs IH]; [reflexivity|]. simpl.
  destruct (keyOf repo itemPath r) eqn:E; simpl.
  - unfold keyOf at 1; simpl. fold (keyOf repo itemPath r). rewrite E.
    simpl. now rewrite IH.
  - now rewrite E, IH.
Qed.

Lemma select_update_other env st repo itemPath lastMod fileSize etag_ repo' itemPath' :
  (repo', itemPath') ≠ (repo, itemPath) →
  selectItems (updateItems env st repo itemPath lastMod fileSize etag_) repo' itemPath'
  = selectItems st repo' itemPath'.
Proof.
  intros Hne. unfold selectItems, updateItems; simpl.
  induction (rows st) as [|r rs IH]; [reflexivity|]. simpl.
  destruct (keyOf repo itemPath r) eqn:E; simpl.
  - unfold keyOf at 1; simpl. fold (keyOf repo' itemPath' r).
    rewrite (keyOf_other repo itemPath repo' itemPath' r Hne E). exact IH.
  - destruct (keyOf repo' itemPath' r); now rewrite IH.
Qed.

(** What [updateCache] returns, case by case. *)
Lemma updateCache_cases env st repo itemPath lastMod fileSize etag_ :
  let res := updateCache env st repo itemPath lastMod fileSize etag_ in
  (res.2 ≠ None ∧ res.1 = st)
  ∨ (res.2 = None ∧ selectItems st repo itemPath = []
     ∧ res.1 = insertItem env st repo itemPath lastMod fileSize etag_)
  ∨ (res.2 = None ∧ selectItems st repo itemPath ≠ []
     ∧ res.1 = updateItems env st repo itemPath lastMod fileSize etag_).
Proof.
  unfold updateCache, writeItem, countItems.
  destruct (countFails env); [left; split; [discriminate|reflexivity]|].
  destruct (beginFails env); [left; split; [discriminate|reflexivity]|].
  destruct (execFails env || commitFails env);
    [left; split; [discriminate|reflexivity]|].
  destruct (selectItems st repo itemPath) as [|d ds] eqn:E; simpl.
  - right; left. auto.
  - right; right. split_and!; auto.
Qed.

Lemma oneRowPerKey_nil : oneRowPerKey [].
Proof. intros repo itemPath. simpl. lia. Qed.

Lemma updateCache_one_row_per_key (env : Env) (st : State)
  (repo itemPath lastMod : string) (fileSize : Z) (etag_ : string) :
  oneRowPerKey (rows st) →
  oneRowPerKey (rows (updateCache env st repo itemPath lastMod fileSize etag_).1).
Proof.
  intros Hinv.
  destruct (updateCache_cases env st repo itemPath lastMod fileSize etag_)
    as [[_ Hst] | [(He & Hsel & Hst) | (He & Hsel & Hst)]];
    rewrite Hst; [exact Hinv | |]; intros repo' itemPath'.
  - change (length (selectItems
      (insertItem env st repo itemPath lastMod fileSize etag_) repo' itemPath') ≤ 1)%nat.
    destruct (decide ((repo', itemPath') = (repo, itemPath))) as [[= -> ->]|Hne].
    + rewrite select_insert_same, Hsel. simpl. lia.
    + rewrite select_insert_other by exact Hne. apply Hinv.
  - change (length (selectItems
      (updateItems env st repo itemPath lastMod fileSize etag_) repo' itemPath') ≤ 1)%nat.
    destruct (decide ((repo', itemPath') = (repo, itemPath))) as [[= -> ->]|Hne].
    + rewrite select_update_same, length_map. apply Hinv.
    + rewrite select_update_other by exact Hne. apply Hinv.
Qed.

(** C2 (amended).  A call of [updateCache] that no other writer interrupts
    keeps the index at one row per key at most: where the key has no row it
    appends one, where it has one it overwrites that row in place, and when
    it reports an error it leaves the table as it was. *)
Theorem C2_updateCache_keeps_one_row_per_key (env : Env) (st : State)
  (repo itemPath lastMod : string) (fileSize : Z) (etag_ : string) :
  oneRowPerKey (rows st) →
  let res := updateCache env st repo itemPath lastMod fileSize etag_ in
  oneRowPerKey (rows res.1)
  ∧ (res.2 = None → selectItems st repo itemPath = [] →
       rows res.1
       = (rows st ++ [inserted env st repo itemPath lastMod fileSize etag_])%list)
  ∧ (res.2 = None → ∀ d, selectItems st repo itemPath = [d] →
       length (rows res.1) = length (rows st)
       ∧ selectItems res.1 repo itemPath
         = [overwritten env lastMod fileSize etag_ d])
  ∧ (res.2 ≠ None → res.1 = st).
Proof.
  intros Hinv res. split; [now apply updateCache_one_row_per_key|].
  destruct (updateCache_cases env st repo itemPath lastMod fileSize etag_)
    as [[He Hst] | [(He & Hsel & Hst) | (He & Hsel & Hst)]];
    fold res in He, Hst.
  - split_and!; congruence.
  - split_and!; try congruence. intros _ _. now rewrite Hst.
  - split_and!; try congruence.
    intros _ d Hd. rewrite Hst. split.
    + unfold updateItems; simpl. now rewrite length_map.
    + now rewrite select_update_same, Hd.
Qed.

(** The first descriptor written to an empty index. *)
Lemma C2_updateCache_keeps_one_row_per_key_witness :
  oneRowPerKey (rows emptyState)
  ∧ oneRowPerKey
      (rows (updateCache (exampleEnv "abc" 200 "200 OK" None None) emptyState
               "pkgs" "a/b.tar" "Mon" 3 "abc").1).
Proof.
  split; [exact oneRowPerKey_nil|].
  exact (proj1 (C2_updateCache_keeps_one_row_per_key
                  (exampleEnv "abc" 200 "200 OK" None None) emptyState
                  "pkgs" "a/b.tar" "Mon" 3 "abc" oneRowPerKey_nil)).
Defined.

(** One call after another, from a table with one row per key at most. *)
Lemma ucSerial_one_row_per_key (env : Env) (calls : list ucArgs) :
  ∀ st, oneRowPerKey (rows st) → oneRowPerKey (rows (ucSerial env st calls)).
Proof.
  induction calls as [|a calls IH]; intros st Hinv; [exact Hinv|].
  simpl. apply IH. now apply updateCache_one_row_per_key.
Qed.

(** C2, as stated, fails: two requests that miss on the same new key both
    read a count of zero before either writes, both INSERT, and the index
    ends with two rows for the key. *)
Lemma C2_concurrent_misses_duplicate_the_row :
  length (selectItems
            (ucRun (exampleEnv "abc" 200 "200 OK" None None) emptyState
               [(fetchedMon, UcStart); (fetchedMon, UcStart)] bothCountFirst).1
            "pkgs" "a/b.tar") = 2%nat
  ∧ ¬ oneRowPerKey
        (rows (ucRun (exampleEnv "abc" 200 "200 OK" None None) emptyState
                 [(fetchedMon, UcStart); (fetchedMon, UcStart)] bothCountFirst).1).
Proof.
  split; [reflexivity|].
  intros H. specialize (H "pkgs" "a/b.tar"). vm_compute in H. lia.
Qed.

(** C3 (amended).  [updateCache] is two rounds with the database: the COUNT,
    and then a transaction holding the one INSERT or UPDATE the count
    selects.  A call that runs alone is an upsert: the only tables ever
    visible are the one before and the one after, a call that returns
    without error leaves the key with rows that all carry the three new
    fields, the rows of other keys are untouched, and a call that returns
    an error changes nothing. *)
Theorem C3_updateCache_alone_upserts (env : Env) (st : State) (a : ucArgs) :
  let res := updateCache env st (ucRepo a) (ucPath a) (ucLastMod a)
               (ucSize a) (ucEtag a) in
  ucRun env st [(a, UcStart)] [0; 0]%nat = (res.1, [(a, UcReturned res.2)])
  ∧ (∀ t, t ∈ ucVisible env st [(a, UcStart)] [0; 0]%nat →
       t = rows st ∨ t = rows res.1)
  ∧ (res.2 = None →
       selectItems res.1 (ucRepo a) (ucPath a) ≠ []
       ∧ ∀ d, d ∈ selectItems res.1 (ucRepo a) (ucPath a) →
           lastmodified d = ucLastMod a ∧ filesize d = ucSize a
           ∧ etag d = ucEtag a)
  ∧ (∀ repo' itemPath', (repo', itemPath') ≠ (ucRepo a, ucPath a) →
       selectItems res.1 repo' itemPath' = selectItems st repo' itemPath')
  ∧ (res.2 ≠ None → res.1 = st).
Proof.
  intros res.
  pose proof (updateCache_cases env st (ucRepo a) (ucPath a) (ucLastMod a)
                (ucSize a) (ucEtag a)) as Hcases.
  cbv zeta in Hcases. fold res in Hcases.
  split_and!.
  - subst res. unfold updateCache. cbn [ucRun lookup list_lookup ucStep].
    destruct (countFails env); [reflexivity|]. cbn.
    now destruct (writeItem env st _ _ _ _ _ _).
  - subst res. unfold updateCache. cbn [ucVisible lookup list_lookup ucStep].
    destruct (countFails env); cbn.
    + intros t Ht. left.
      repeat (apply elem_of_cons in Ht as [->|Ht]; [reflexivity|]).
      now apply elem_of_nil in Ht.
    + destruct (writeItem env st _ _ _ _ _ _) as [st' e]. cbn.
      intros t Ht.
      repeat (apply elem_of_cons in Ht as [->|Ht]; [auto|]).
      now apply elem_of_nil in Ht.
  - intros He.
    destruct Hcases as [[He' Hst] | [(_ & Hsel & Hst) | (_ & Hsel & Hst)]];
      [congruence | |]; rewrite Hst.
    + rewrite select_insert_same, Hsel. split; [discriminate|].
      intros d Hd. apply list_elem_of_singleton in Hd as ->. now split_and!.
    + rewrite select_update_same. split.
      * destruct (selectItems st (ucRepo a) (ucPath a)); [congruence|discriminate].
      * intros d Hd. apply list_elem_of_In, in_map_iff in Hd as (d0 & <- & _).
        now split_and!.
  - intros repo' itemPath' Hne.
    destruct Hcases as [[_ Hst] | [(_ & _ & Hst) | (_ & _ & Hst)]]; rewrite Hst.
    + reflexivity.
    + now apply select_insert_other.
    + now apply select_update_other.
  - intros He.
    destruct Hcases as [[_ Hst] | [(He' & _) | (He' & _)]]; congruence.
Qed.

(** C3, as stated, fails: the count is read outside the transaction, so the
    rounds of two calls can alternate, and the table they leave is the
    outcome of neither order of two atomic upserts. *)
Lemma C3_count_then_write_is_not_atomic :
  rows (ucRun (exampleEnv "abc" 200 "200 OK" None None) emptyState
          [(fetchedMon, UcStart); (fetchedTue, UcStart)] bothCountFirst).1
  ≠ rows (ucSerial (exampleEnv "abc" 200 "200 OK" None None) emptyState
            [fetchedMon; fetchedTue])
  ∧ rows (ucRun (exampleEnv "abc" 200 "200 OK" None None) emptyState
            [(fetchedMon, UcStart); (fetchedTue, UcStart)] bothCountFirst).1
    ≠ rows (ucSerial (exampleEnv "abc" 200 "200 OK" None None) emptyState
              [fetchedTue; fetchedMon]).
Proof.
  split; intros H; apply (f_equal length) in H; vm_compute in H; discriminate.
Qed.

(** ** The handler, once the request is routed and the probe answered *)

Lemma http_Error_fresh (w : http.ResponseWriter) (msg : string) (code : Z) :
  http.status w = None → http.connRoom w = None →
  http.Error w msg code
  = {| http.contentType := "text/plain; charset=utf-8";
       http.status := Some code;
       http.sent := (http.sent w ++ list_byte_of_string (msg ++ String "010" ""))%list;
       http.connRoom := None |}.
Proof.
  intros Hs Hr. unfold http.Error, http.ResponseWrite, http.WriteHeader,
    http.SetContentType. simpl. rewrite Hs. simpl. rewrite Hr. reflexivity.
Qed.

(** [os.Mkdir] and [os.MkdirAll] touch directories only and remove none; a
    success leaves the directory in place, also when it was there before. *)
Lemma Mkdir_spec (env : Env) (st : State) (path : string) st' err :
  os.Mkdir env st path = (st', err) →
  rows st' = rows st ∧ nextRowid st' = nextRowid st ∧ files st' = files st
  ∧ dirs st ⊆ dirs st' ∧ (err = None → path ∈ dirs st').
Proof.
  unfold os.Mkdir.
  destruct (_ || _ || _ || _); intros [= <- <-]; simpl; split_and!; auto;
    try discriminate; set_solver.
Qed.

Lemma mkdirAllFrom_spec (fuel : nat) (env : Env) :
  ∀ (st : State) (path : string) st' err,
    os.mkdirAllFrom fuel env st path = (st', err) →
    rows st' = rows st ∧ nextRowid st' = nextRowid st ∧ files st' = files st
    ∧ dirs st ⊆ dirs st' ∧ (err = None → path ∈ dirs st').
Proof.
  assert (Hstep : ∀ (st : State) (path : string) (up : State * option error) st' err,
    (rows up.1 = rows st ∧ nextRowid up.1 = nextRowid st ∧ files up.1 = files st
     ∧ dirs st ⊆ dirs up.1) →
    (let '(st1, e1) := up in
     match e1 with Some e => (st1, Some e) | None => os.Mkdir env st1 path end)
    = (st', err) →
    rows st' = rows st ∧ nextRowid st' = nextRowid st ∧ files st' = files st
    ∧ dirs st ⊆ dirs st' ∧ (err = None → path ∈ dirs st')).
  { intros st path [st1 [e|]] st' err (Hr & Hn & Hf & Hd); simpl in *.
    - intros [= <- <-]. split_and!; auto. discriminate.
    - intros Hm. destruct (Mkdir_spec _ _ _ _ _ Hm) as (Hr' & Hn' & Hf' & Hd' & Hin).
      split_and!; try congruence; auto. intros x Hx. apply Hd', Hd, Hx. }
  induction fuel as [|fuel IH]; intros st path st' err; cbn [os.mkdirAllFrom];
    case_bool_decide as Hdir;
    try (intros [= <- <-]; split_and!; now auto);
    case_bool_decide as Hfile;
    try (intros [= <- <-]; split_and!; auto; discriminate).
  - apply (Hstep st path (st, None)). simpl. auto.
  - destruct (os.parent path) as [up|].
    + apply Hstep. destruct (os.mkdirAllFrom fuel env st up) as [st1 e1] eqn:E.
      destruct (IH _ _ _ _ E) as (? & ? & ? & ? & _). simpl. auto.
    + apply (Hstep st path (st, None)). simpl. auto.
Qed.

Lemma MkdirAll_spec (env : Env) (st : State) (path : string) st' err :
  os.MkdirAll env st path = (st', err) →
  rows st' = rows st ∧ nextRowid st' = nextRowid st ∧ files st' = files st
  ∧ dirs st ⊆ dirs st' ∧ (err = None → path ∈ dirs st').
Proof. apply mkdirAllFrom_spec. Qed.

(** A directory that exists is not made again. *)
Lemma MkdirAll_dir (env : Env) (st : State) (path : string) :
  path ∈ dirs st → os.MkdirAll env st path = (st, None).
Proof.
  intros Hin. unfold os.MkdirAll.
  destruct (String.length path); cbn [os.mkdirAllFrom];
    now rewrite bool_decide_eq_true_2.
Qed.

(** [prepareCacheDir] hands back either the empty path and an error, or the
    path of the blob with its directory in place. *)
Lemma prepareCacheDir_cases (env : Env) (st : State) (repo itemPath : string) :
  let dirPath := filepath.Join [cacheDir env; repo; filepath.Dir itemPath] in
  ∃ st1,
    ((∃ e, prepareCacheDir env st repo itemPath = (st1, "", Some e))
     ∨ (prepareCacheDir env st repo itemPath
        = (st1, filepath.Join [cacheDir env; repo; itemPath], None)
        ∧ dirPath ∈ dirs st1))
    ∧ rows st1 = rows st ∧ nextRowid st1 = nextRowid st ∧ files st1 = files st
    ∧ dirs st ⊆ dirs st1.
Proof.
  intros dirPath. unfold prepareCacheDir. fold dirPath.
  destruct (os.MkdirAll env st dirPath) as [st1 [e|]] eqn:E;
    destruct (MkdirAll_spec _ _ _ _ _ E) as (Hr & Hn & Hf & Hd & Hin);
    exists st1; split_and!; eauto.
Qed.

Lemma prepareCacheDir_keeps (env : Env) (st : State) (repo itemPath : string) :
  rows (prepareCacheDir env st repo itemPath).1.1 = rows st
  ∧ nextRowid (prepareCacheDir env st repo itemPath).1.1 = nextRowid st
  ∧ files (prepareCacheDir env st repo itemPath).1.1 = files st.
Proof.
  destruct (prepareCacheDir_cases env st repo itemPath)
    as (st1 & [[e ->] | [-> _]] & Hr & Hn & Hf & _); auto.
Qed.

(** The MISS path always asks the upstream for the full body, and never
    ends where a hit does. *)
Lemma miss_asks_upstream env st w repoName rest targetUrl cachePath p tr :
  let res := mainHandler_miss env st w repoName rest targetUrl cachePath p tr in
  EGet targetUrl ∈ trace res ∧ stopped res ≠ ExitHit.
Proof.
  unfold mainHandler_miss.
  destruct (Get env targetUrl) as [respGet|]; cbn zeta.
  2: { simpl. split; [|discriminate]. set_solver. }
  destruct (http.StatusBadRequest <=? http.StatusCode respGet)%Z.
  { simpl. split; [|discriminate]. set_solver. }
  destruct (os.Create env st cachePath) as [file|].
  2: { simpl. split; [|discriminate]. set_solver. }
  destruct (io.Copy _ _) as [[w' f'] [e|]].
  { simpl. split; [|discriminate]. set_solver. }
  destruct (updateCache _ _ _ _ _ _ _) as [st' [e|]];
    simpl; (split; [|discriminate]); set_solver.
Qed.

(** [itemInCache] answers [true] exactly when the lookup returns a row
    with the three fields it was given. *)
Lemma itemInCache_true (env : Env) (st : State) (repo itemPath lastMod_ : string)
  (fileSize : Z) (etag_ : string) :
  (itemInCache env st repo itemPath lastMod_ fileSize etag_).1 = true ↔
  ∃ d, queryRow (selectFails env) (selectItems st repo itemPath) = inl d
       ∧ lastmodified d = lastMod_
       ∧ filesize d = fileSize
       ∧ etag d = etag_.
Proof.
  unfold itemInCache.
  destruct (queryRow _ _) as [d|e].
  - destruct (_ && _ && _) eqn:E; cbn [fst].
    + apply andb_true_iff in E as [[H1 H2]%andb_true_iff H3].
      apply String.eqb_eq in H1, H3. apply Z.eqb_eq in H2.
      split; [intros _; exists d; now split_and! | reflexivity].
    + split; [discriminate|]. intros (d' & [= <-] & H1 & H2 & H3).
      apply String.eqb_eq in H1, H3. apply Z.eqb_eq in H2.
      rewrite H1, H2, H3 in E. discriminate.
  - cbn [fst]. split; [discriminate | intros (d' & [=] & _)].
Qed.

Lemma Create_spec (env : Env) (st : State) (path : string) (f : os.File) :
  os.Create env st path = Some f →
  os.store f = <[path := []]> (files st)
  ∧ os.name f = path
  ∧ os.disk f = diskRoom env.
Proof.
  unfold os.Create. destruct (_ || _ || _ || _); [discriminate|].
  intros [= <-]. auto.
Qed.

Lemma updateCache_files (env : Env) (st : State)
  (repo itemPath lastMod_ : string) (fileSize : Z) (etag_ : string) :
  files (updateCache env st repo itemPath lastMod_ fileSize etag_).1 = files st.
Proof.
  destruct (updateCache_cases env st repo itemPath lastMod_ fileSize etag_)
    as [[_ Hst] | [(_ & _ & Hst) | (_ & _ & Hst)]]; now rewrite Hst.
Qed.

Section Routed.

Variables (env : Env) (st : State) (w : http.ResponseWriter) (r : Request).
Variables (repoName rest remoteBase : string) (respHead : http.Header).

(** The path splits into a repository and a rest, the repository is
    mapped, and the upstream answers the probe. *)
Hypothesis Hsplit :
  strings.SplitN (strings.TrimPrefix (URLPath r) "/r/") "/" 2 = [repoName; rest].
Hypothesis Hrepo : getRepoMap env repoName = (remoteBase, None).
Hypothesis Hhead : Head env (targetUrlOf remoteBase rest) = Some respHead.

Let targetUrl : string := targetUrlOf remoteBase rest.
Let p : probe := readProbe respHead.
Let st1 : State := (prepareCacheDir env st repoName rest).1.1.
Let cachePath : string := (prepareCacheDir env st repoName rest).1.2.
Let tr0 : list event :=
  ([EHead targetUrl] ++
   match (prepareCacheDir env st repoName rest).2 with
   | Some _ => [ELog "ERR_PREPARECACHEPATH"]
   | None => []
   end)%list.
Let inCache : bool :=
  (itemInCache env st1 repoName rest (lastMod p) (contentLength p) (probeEtag p)).1.

(** Lines 134-176 under these hypotheses: a hit hands the file to
    [http.ServeFile], anything else is the MISS path. *)
Lemma mainHandler_routed :
  mainHandler env st w r
  = if servesFromCache env st1 cachePath inCache
    then mkResult ExitHit st1 w (tr0 ++ [EServeFile cachePath])
    else mainHandler_miss env st1 w repoName rest targetUrl cachePath p tr0.
Proof.
  unfold mainHandler. rewrite Hsplit. cbn [lookup list_lookup].
  rewrite Hrepo. fold targetUrl. unfold targetUrl at 1. rewrite Hhead.
  fold targetUrl p.
  subst inCache st1 cachePath tr0.
  destruct (prepareCacheDir env st repoName rest) as [[st' cp] err]. cbn [fst snd].
  destruct (itemInCache env st' repoName rest (lastMod p) (contentLength p)
              (probeEtag p)) as [ic e]. cbn [fst].
  reflexivity.
Qed.

Lemma select_st1 : selectItems st1 repoName rest = selectItems st repoName rest.
Proof.
  unfold selectItems. subst st1.
  now rewrite (proj1 (prepareCacheDir_keeps env st repoName rest)).
Qed.

Lemma inCache_spec :
  inCache = true ↔
  ∃ d, queryRow (selectFails env) (selectItems st repoName rest) = inl d
       ∧ lastmodified d = lastMod p
       ∧ filesize d = contentLength p
       ∧ etag d = probeEtag p.
Proof.
  subst inCache. rewrite itemInCache_true, select_st1. reflexivity.
Qed.

(** C4 (amended).  The request is a HIT, served by [http.ServeFile] without
    a full fetch, exactly when the lookup returns a row whose
    [lastmodified], [filesize] and [etag] equal the probe's values and
    [os.Stat] on the cache path does not report that the path does not
    exist; a key without a row is never a HIT. *)
Theorem C4_hit_iff_row_matches_and_stat_is_not_notexist :
  let res := mainHandler env st w r in
  (stopped res = ExitHit ↔
     (∃ d, queryRow (selectFails env) (selectItems st repoName rest) = inl d
           ∧ lastmodified d = lastMod p
           ∧ filesize d = contentLength p
           ∧ etag d = probeEtag p)
     ∧ os.Stat env st1 cachePath ≠ StatNotExist)
  ∧ (stopped res = ExitHit →
       (∀ url, EGet url ∉ trace res)
       ∧ EServeFile cachePath ∈ trace res
       ∧ after res = st1 ∧ response res = w)
  ∧ (selectItems st repoName rest = [] → stopped res ≠ ExitHit).
Proof.
  intros res.
  assert (Hhit : stopped res = ExitHit ↔ servesFromCache env st1 cachePath inCache = true).
  { subst res. rewrite mainHandler_routed.
    destruct (servesFromCache env st1 cachePath inCache); simpl.
    - tauto.
    - split; [|discriminate]. intros H. exfalso.
      now apply (miss_asks_upstream env st1 w repoName rest targetUrl cachePath p tr0). }
  assert (Hcond : servesFromCache env st1 cachePath inCache = true ↔
            inCache = true ∧ os.Stat env st1 cachePath ≠ StatNotExist).
  { unfold servesFromCache. rewrite andb_true_iff, negb_true_iff.
    destruct (os.Stat env st1 cachePath); simpl; split; intros [? ?];
      split; congruence. }
  split_and!.
  - rewrite Hhit, Hcond, inCache_spec. reflexivity.
  - intros H. apply Hhit in H. subst res. rewrite mainHandler_routed, H. simpl.
    split_and!; auto.
    + intros url Hin. apply list_elem_of_In in Hin. subst tr0.
      destruct ((prepareCacheDir env st repoName rest).2);
        simpl in Hin; intuition discriminate.
    + apply list_elem_of_In. right. apply in_or_app. right. now left.
  - intros Hnone H. apply Hhit, Hcond in H as [H _].
    apply inCache_spec in H as (d & Hq & _).
    rewrite Hnone in Hq. unfold queryRow in Hq.
    destruct (selectFails env); discriminate.
Qed.

(** C9.  When the lookup of [itemInCache] fails, with no row or with any
    other error, [itemInCache] answers [false] with a nil error and the
    handler goes on as for any MISS: the run is the MISS path, in which the
    lookup's error plays no part, and it asks the upstream for the body. *)
Theorem C9_lookup_failure_falls_through_to_miss (e : error) :
  queryRow (selectFails env) (selectItems st repoName rest) = inr e →
  itemInCache env st1 repoName rest (lastMod p) (contentLength p) (probeEtag p)
  = (false, None)
  ∧ mainHandler env st w r
    = mainHandler_miss env st1 w repoName rest targetUrl cachePath p tr0
  ∧ EGet targetUrl ∈ trace (mainHandler env st w r)
  ∧ stopped (mainHandler env st w r) ≠ ExitHit.
Proof.
  intros Hq.
  assert (Hin : itemInCache env st1 repoName rest (lastMod p) (contentLength p)
                  (probeEtag p) = (false, None)).
  { unfold itemInCache. now rewrite select_st1, Hq. }
  assert (Hm : mainHandler env st w r
    = mainHandler_miss env st1 w repoName rest targetUrl cachePath p tr0).
  { rewrite mainHandler_routed. subst inCache. rewrite Hin. cbn [fst].
    unfold servesFromCache. now rewrite andb_false_r. }
  split_and!; auto; rewrite Hm;
    now apply (miss_asks_upstream env st1 w repoName rest targetUrl cachePath p tr0).
Qed.

(** *** The MISS path with the upstream's answer in hand *)

Section Fetched.

Variable respGet : http.Response.
Hypothesis Hmiss : servesFromCache env st1 cachePath inCache = false.
Hypothesis Hget : Get env targetUrl = Some respGet.

(** C8.  On a MISS whose full fetch is answered with a status of 400 or
    more, the handler replies with that status code and a body made of
    [UPSTREAM ERROR] and the upstream's status text, and stops: no file of
    the blob store and no row of the index has changed. *)
Theorem C8_upstream_error_is_relayed_without_caching :
  (http.StatusBadRequest ≤ http.StatusCode respGet)%Z →
  let res := mainHandler env st w r in
  stopped res = ExitUpstreamError
  ∧ response res
    = http.Error w ("UPSTREAM ERROR " ++ http.Status respGet)
        (http.StatusCode respGet)
  ∧ (http.status w = None → http.connRoom w = None →
       http.status (response res) = Some (http.StatusCode respGet)
       ∧ http.sent (response res)
         = (http.sent w ++
            list_byte_of_string
              ("UPSTREAM ERROR " ++ http.Status respGet ++ String "010" ""))%list)
  ∧ files (after res) = files st
  ∧ rows (after res) = rows st
  ∧ nextRowid (after res) = nextRowid st.
Proof.
  intros Hcode res. subst res. rewrite mainHandler_routed, Hmiss.
  unfold mainHandler_miss. rewrite Hget.
  apply Z.leb_le in Hcode. rewrite Hcode. cbn [stopped response after].
  destruct (prepareCacheDir_keeps env st repoName rest) as (Hr & Hn & Hf).
  split_and!; auto.
  intros Hs Hroom. rewrite (http_Error_fresh w _ _ Hs Hroom). cbn.
  split; reflexivity.
Qed.

Section Stored.

Variable file : os.File.
Hypothesis Hok : (http.StatusCode respGet < http.StatusBadRequest)%Z.
Hypothesis Hcreate : os.Create env st1 cachePath = Some file.

Let body : Reader := http.Body respGet.

(** Lines 193-224 under these hypotheses: the copy, and what follows it. *)
Lemma miss_streamed :
  ∃ w' f' err dw df,
    io.Copy (http.SetContentType w (mimeType p), file) body = ((w', f'), err)
    ∧ http.sent w' = (http.sent w ++ dw)%list
    ∧ http.contentType w' = mimeType p
    ∧ http.finalStatus w' = http.finalStatus w
    ∧ os.store f' = <[cachePath := df]> (files st)
    ∧ df `prefix_of` dw
    ∧ dw `prefix_of` io.ReadAll body
    ∧ (err = None ↔
         io.ReadsThrough body = true
         ∧ io.Fits (http.connRoom w) (io.ReadAll body)
         ∧ io.Fits (diskRoom env) (io.ReadAll body))
    ∧ (err = None → dw = io.ReadAll body ∧ df = io.ReadAll body)
    ∧ stopped (mainHandler env st w r)
      = match err with Some _ => ExitStreamError | None => ExitEnd end
    ∧ response (mainHandler env st w r) = w'
    ∧ files (after (mainHandler env st w r)) = os.store f'
    ∧ (err ≠ None →
         rows (after (mainHandler env st w r)) = rows st
         ∧ last (trace (mainHandler env st w r)) = Some (ELog "ERR_STREAM")).
Proof.
  destruct (Create_spec env st1 cachePath file Hcreate) as (Hst & Hn & Hd).
  destruct (prepareCacheDir_keeps env st repoName rest) as (Hr & _ & Hf).
  fold st1 in Hr, Hf.
  assert (Hc : os.store file !! os.name file = Some []).
  { rewrite Hst, Hn. apply lookup_insert_eq. }
  destruct (Copy_tee body (http.SetContentType w (mimeType p)) file [] Hc)
    as (w' & f' & err & dw & df & HC & Hs & Hct & Hfs & Hst' & Hn' & Hp1 & Hp2 & Hiff & Hall).
  exists w', f', err, dw, df.
  assert (Hrun : mainHandler env st w r
    = mainHandler_miss env st1 w repoName rest targetUrl cachePath p tr0).
  { now rewrite mainHandler_routed, Hmiss. }
  rewrite Hrun. unfold mainHandler_miss. rewrite Hget.
  apply Z.ltb_lt in Hok. rewrite Z.leb_antisym, Hok. cbn [negb].
  rewrite Hcreate. fold body. rewrite HC.
  split; [reflexivity|]. split_and!; auto.
  - rewrite Hst', Hn, Hst, Hf, insert_insert_eq. reflexivity.
  - rewrite Hd in Hiff. exact Hiff.
  - destruct err; [reflexivity|].
    now destruct (updateCache _ _ _ _ _ _ _) as [? [?|]].
  - destruct err; [reflexivity|].
    now destruct (updateCache _ _ _ _ _ _ _) as [? [?|]].
  - destruct err; [reflexivity|].
    pose proof (updateCache_files env (withFiles st1 (os.store f')) repoName rest
      (http.LastModified (http.RespHeader respGet))
      (if String.eqb (http.ContentLength (http.RespHeader respGet)) ""
       then contentLength p
       else (strconv.ParseInt (http.ContentLength (http.RespHeader respGet))).1)
      (strings.TrimPrefix (http.Etag (http.RespHeader respGet)) "W/")) as Hfiles.
    destruct (updateCache _ _ _ _ _ _ _) as [st' [?|]]; exact Hfiles.
  - intros He. destruct err; [|congruence]. cbn [after trace rows withFiles].
    split; [exact Hr|]. now rewrite !last_snoc.
Qed.

(** C1 (amended).  For a request that is the only writer of its cache path
    while it runs (the [os.File] of the handler is its own view of the
    store, and the run is one uninterrupted [mainHandler]): on the MISS path
    the blob file is created, empty, at its final cache path before the
    copy starts, and the copy writes to that path chunk by chunk: at every
    point of the copy the final path holds a prefix of the body, it holds
    the whole body once the handler has run to its end, and whatever the
    copy leaves there is what stays in the store.  Without the condition
    not even this holds: see [truncatedUnderWriter]. *)
Theorem C1_blob_is_written_in_place_at_its_final_path :
  let res := mainHandler env st w r in
  let sinks := (http.SetContentType w (mimeType p), file) in
  os.name file = cachePath
  ∧ os.store file !! cachePath = Some []
  ∧ (∀ s, s ∈ io.CopyStates sinks body →
       ∃ d, os.store s.2 !! cachePath = Some d
            ∧ d `prefix_of` io.ReadAll body)
  ∧ last (io.CopyStates sinks body) = Some (io.Copy sinks body).1
  ∧ files (after res) = os.store (io.Copy sinks body).1.2
  ∧ (stopped res = ExitEnd →
       files (after res) !! cachePath = Some (io.ReadAll body)).
Proof.
  intros res sinks.
  destruct (Create_spec env st1 cachePath file Hcreate) as (Hst & Hn & Hd).
  assert (Hc : os.store file !! os.name file = Some []).
  { rewrite Hst, Hn. apply lookup_insert_eq. }
  destruct miss_streamed
    as (w' & f' & err & dw & df & HC & Hs & Hct & Hfs & Hst' & Hp1 & Hp2 & Hiff
        & Hall & Hstop & Hresp & Hfiles & Hfail).
  fold sinks in HC. fold res in Hstop, Hresp, Hfiles, Hfail.
  split_and!.
  - exact Hn.
  - now rewrite <- Hn.
  - intros s Hin.
    destruct (CopyStates_tee body _ file [] Hc s Hin) as (d & H1 & H2 & H3).
    exists d. split; [|exact H3]. rewrite H1, Hn. apply lookup_insert_eq.
  - apply CopyStates_last.
  - now rewrite Hfiles, HC.
  - intros Hend. rewrite Hstop in Hend.
    destruct err; [discriminate|]. destruct (Hall eq_refl) as [_ ->].
    rewrite Hfiles, Hst'. apply lookup_insert_eq.
Qed.


(** C7 (amended).  When the copy fails the handler logs [ERR_STREAM] and
    returns.  It writes no error reply: the status is the one the response
    already had (200 for a response that had none), the content type is the
    probe's, and the body is the part of the upstream body sent so far.  No
    descriptor is written, and the part of the body that reached the blob
    file stays at the cache path. *)
Theorem C7_stream_error_is_logged_not_answered :
  let res := mainHandler env st w r in
  stopped res = ExitStreamError →
  http.finalStatus (response res) = http.finalStatus w
  ∧ (http.status w = None → http.finalStatus (response res) = 200%Z)
  ∧ http.contentType (response res) = mimeType p
  ∧ (∃ dw df,
       http.sent (response res) = (http.sent w ++ dw)%list
       ∧ dw `prefix_of` io.ReadAll body
       ∧ files (after res) !! cachePath = Some df
       ∧ df `prefix_of` dw)
  ∧ rows (after res) = rows st
  ∧ last (trace res) = Some (ELog "ERR_STREAM").
Proof.
  intros res Hstop'.
  destruct miss_streamed
    as (w' & f' & err & dw & df & HC & Hs & Hct & Hfs & Hst' & Hp1 & Hp2 & Hiff
        & Hall & Hstop & Hresp & Hfiles & Hfail).
  fold res in Hstop, Hresp, Hfiles, Hfail.
  rewrite Hstop in Hstop'. destruct err as [e|]; [|discriminate].
  destruct Hfail as [Hrows Hlast]; [discriminate|].
  rewrite Hresp, Hfiles. split_and!; auto.
  - intros Hnone. rewrite Hfs. unfold http.finalStatus. now rewrite Hnone.
  - exists dw, df. split_and!; auto. rewrite Hst'. apply lookup_insert_eq.
Qed.

End Stored.
End Fetched.
End Routed.

(** ** The scenarios *)

(** Scenario A, then B: the first request misses, fetches and stores the
    descriptor; the same request again is a hit. *)
Example scenario_A_then_B :
  let first := serve envOk emptyState exampleRequest in
  let second := serve envOk (after first) exampleRequest in
  stopped first = ExitEnd
  ∧ rows (after first)
    = [ {| rowid := 1; reponame := "pkgs"; pathname := "a/b.tar";
           lastmodified := "Mon"; filesize := 3; etag := "abc";
           updatedate := 0 |} ]
  ∧ files (after first) !! examplePath = Some (io.ReadAll exampleBody)
  ∧ stopped second = ExitHit
  ∧ trace second = [EHead exampleUrl; EServeFile examplePath].
Proof. vm_compute. split_and!; reflexivity. Qed.

(** Scenario D: an unknown repository is answered with 404 and the upstream
    is not contacted. *)
Example scenario_D :
  let res := serve envOk emptyState {| URLPath := "/r/foo/a/b.tar" |} in
  stopped res = ExitNotFound
  ∧ http.status (response res) = Some 404%Z
  ∧ trace res = [ELog "ERR_GETREPOMAP"; ECapture].
Proof. vm_compute. split_and!; reflexivity. Qed.

(** The request of scenario B is a hit; that of scenario A is not. *)
Lemma C4_hit_iff_row_matches_and_stat_is_not_notexist_witness :
  stopped (serve envOk (after (serve envOk emptyState exampleRequest))
             exampleRequest) = ExitHit
  ∧ stopped (serve envOk emptyState exampleRequest) ≠ ExitHit.
Proof.
  split.
  - apply (C4_hit_iff_row_matches_and_stat_is_not_notexist envOk
             (after (serve envOk emptyState exampleRequest))
             (http.newResponseWriter None) exampleRequest
             "pkgs" "a/b.tar" "https://example.org/repo/" (exampleHeader "abc")
             eq_refl eq_refl eq_refl).
    split.
    + exists {| rowid := 1; reponame := "pkgs"; pathname := "a/b.tar";
                lastmodified := "Mon"; filesize := 3; etag := "abc";
                updatedate := 0 |}.
      vm_compute. split_and!; reflexivity.
    + vm_compute. discriminate.
  - apply (C4_hit_iff_row_matches_and_stat_is_not_notexist envOk emptyState
             (http.newResponseWriter None) exampleRequest
             "pkgs" "a/b.tar" "https://example.org/repo/" (exampleHeader "abc")
             eq_refl eq_refl eq_refl).
    reflexivity.
Defined.

(** C4, as stated, fails: with the descriptor of the key in the index and no
    blob on disk, a failure of [os.Stat] that is not a not-exist error makes
    the request a HIT. *)
Lemma C4_stat_failure_counts_as_present :
  let res := serve (statDenied envOk) descriptorOnly exampleRequest in
  files descriptorOnly !! examplePath = None
  ∧ stopped res = ExitHit
  ∧ trace res = [EHead exampleUrl; EServeFile examplePath]
  ∧ files (after res) !! examplePath = None.
Proof. vm_compute. split_and!; reflexivity. Qed.

(** With an empty index the lookup finds no row, and the body is fetched. *)
Lemma C9_lookup_failure_falls_through_to_miss_witness :
  queryRow (selectFails envOk) (selectItems emptyState "pkgs" "a/b.tar")
  = inr ErrNoRows
  ∧ EGet exampleUrl ∈ trace (serve envOk emptyState exampleRequest)
  ∧ stopped (serve envOk emptyState exampleRequest) ≠ ExitHit.
Proof.
  split; [reflexivity|].
  apply (C9_lookup_failure_falls_through_to_miss envOk emptyState
           (http.newResponseWriter None) exampleRequest
           "pkgs" "a/b.tar" "https://example.org/repo/" (exampleHeader "abc")
           eq_refl eq_refl eq_refl ErrNoRows eq_refl).
Defined.

(** Scenario E: the upstream answers the fetch with 503. *)
Lemma C8_upstream_error_is_relayed_without_caching_witness :
  let res := serve env503 emptyState exampleRequest in
  stopped res = ExitUpstreamError
  ∧ http.status (response res) = Some 503%Z
  ∧ http.sent (response res)
    = list_byte_of_string ("UPSTREAM ERROR 503 Service Unavailable" ++ String "010" "")
  ∧ files (after res) = files emptyState
  ∧ rows (after res) = rows emptyState.
Proof.
  pose proof (C8_upstream_error_is_relayed_without_caching env503 emptyState
           (http.newResponseWriter None) exampleRequest
           "pkgs" "a/b.tar" "https://example.org/repo/" (exampleHeader "abc")
           eq_refl eq_refl eq_refl
           {| http.StatusCode := 503; http.Status := "503 Service Unavailable";
              http.RespHeader := exampleHeader "abc"; http.Body := exampleBody |}
           eq_refl eq_refl ltac:(vm_compute; discriminate))
    as (H1 & _ & H3 & H4 & H5 & _).
  destruct (H3 eq_refl eq_refl) as [H31 H32].
  split_and!; assumption.
Defined.


(** The disk fills up after one byte. *)
Lemma C7_stream_error_is_logged_not_answered_witness :
  let res := serve envDiskFull emptyState exampleRequest in
  stopped res = ExitStreamError
  ∧ http.finalStatus (response res) = 200%Z
  ∧ rows (after res) = []
  ∧ last (trace res) = Some (ELog "ERR_STREAM").
Proof.
  split; [reflexivity|].
  destruct (C7_stream_error_is_logged_not_answered envDiskFull emptyState
           (http.newResponseWriter None) exampleRequest
           "pkgs" "a/b.tar" "https://example.org/repo/" (exampleHeader "abc")
           eq_refl eq_refl eq_refl
           {| http.StatusCode := 200; http.Status := "200 OK";
              http.RespHeader := exampleHeader "abc"; http.Body := exampleBody |}
           eq_refl eq_refl _ eq_refl eq_refl eq_refl)
    as (_ & H2 & _ & _ & H5 & H6).
  split_and!; [exact (H2 eq_refl) | exact H5 | exact H6].
Defined.


(** C7, as stated, fails: when the disk fills up during the copy the client
    has a 200 and the first chunk, no 500 and no diagnostic body, and the
    partial blob stays at the cache path. *)
Lemma C7_stream_error_sends_no_500 :
  let res := serve envDiskFull emptyState exampleRequest in
  stopped res = ExitStreamError
  ∧ http.status (response res) = Some 200%Z
  ∧ http.finalStatus (response res) ≠ http.StatusInternalServerError
  ∧ http.sent (response res) = ["a"; "b"]%byte
  ∧ files (after res) !! examplePath = Some ["a"]%byte.
Proof. vm_compute. split_and!; (reflexivity || discriminate). Qed.

(** Scenario A: the final path holds the body after the run. *)
Lemma C1_blob_is_written_in_place_at_its_final_path_witness :
  let res := serve envOk emptyState exampleRequest in
  files (after res) !! examplePath = Some (io.ReadAll exampleBody).
Proof.
  intros res.
  destruct (C1_blob_is_written_in_place_at_its_final_path envOk emptyState
           (http.newResponseWriter None) exampleRequest
           "pkgs" "a/b.tar" "https://example.org/repo/" (exampleHeader "abc")
           eq_refl eq_refl eq_refl
           {| http.StatusCode := 200; http.Status := "200 OK";
              http.RespHeader := exampleHeader "abc"; http.Body := exampleBody |}
           eq_refl eq_refl _ eq_refl eq_refl)
    as (_ & _ & _ & _ & _ & H6).
  exact (H6 eq_refl).
Defined.

(** C1, as stated, fails: the client goes away after the first chunk, the
    copy stops, and the final path is left holding two of the three bytes
    of the body. *)
Lemma C1_truncated_blob_stays_at_the_final_path :
  let res := serve envClientGone emptyState exampleRequest in
  stopped res = ExitStreamError
  ∧ io.ReadAll exampleBody = ["a"; "b"; "c"]%byte
  ∧ files (after res) !! examplePath = Some ["a"; "b"]%byte.
Proof. vm_compute. split_and!; reflexivity. Qed.

(** ** The weak-validator prefix *)

Lemma length_drop (n : nat) (s : string) :
  String.length (strings.drop n s) = (String.length s - n)%nat.
Proof.
  revert s. induction n as [|n IH]; intros [|c s]; simpl; auto; lia.
Qed.

Lemma HasPrefix_length (s prefix : string) :
  strings.HasPrefix s prefix = true →
  (String.length prefix ≤ String.length s)%nat.
Proof.
  revert s. induction prefix as [|c prefix IH]; intros [|d s]; simpl;
    try lia; try discriminate.
  destruct (Ascii.eqb d c); [|discriminate]. intros H%IH. lia.
Qed.

(** The descriptor a MISS stores for a weak entity tag carries the tag
    without its [W/]; the probe's tag is compared as it came, so that
    descriptor never matches the probe it was stored for. *)
Lemma weak_etag_never_matches (env : Env) (st : State)
  (repo itemPath lastMod_ : string) (fileSize : Z) (tag : string) (d : cacheitem) :
  strings.HasPrefix tag "W/" = true →
  queryRow (selectFails env) (selectItems st repo itemPath) = inl d →
  etag d = strings.TrimPrefix tag "W/" →
  itemInCache env st repo itemPath lastMod_ fileSize tag = (false, None).
Proof.
  intros Hw Hq Hd. unfold itemInCache. rewrite Hq.
  assert (Hne : String.eqb (etag d) tag = false).
  { apply String.eqb_neq. intros Heq. rewrite Heq in Hd.
    unfold strings.TrimPrefix in Hd. rewrite Hw in Hd.
    apply (f_equal String.length) in Hd. rewrite length_drop in Hd.
    apply HasPrefix_length in Hw. simpl in Hw, Hd. lia. }
  rewrite Hne, andb_false_r. reflexivity.
Qed.

(** C5.  The tag is stripped before it is stored (line 217) but not before
    it is compared (line 171).  With a weak tag upstream, the first request
    stores the descriptor with the tag [abc]; the same request again probes
    [W/abc], does not match, and fetches the whole body a second time.  With
    the strong tag [abc] the second request is a hit. *)
Theorem C5_weak_etag_is_stored_stripped_but_compared_raw :
  let first := serve envWeak emptyState exampleRequest in
  let second := serve envWeak (after first) exampleRequest in
  stopped first = ExitEnd
  ∧ List.map etag (rows (after first)) = ["abc"]
  ∧ probeEtag (readProbe (exampleHeader "W/abc")) = "W/abc"
  ∧ stopped second = ExitEnd
  ∧ List.filter (fun e => match e with EGet _ => true | _ => false end)
      (trace second) = [EGet exampleUrl]
  ∧ List.map etag (rows (after second)) = ["abc"]
  ∧ stopped (serve envOk (after (serve envOk emptyState exampleRequest))
               exampleRequest) = ExitHit.
Proof. vm_compute. split_and!; reflexivity. Qed.

(** A hit is always a routed request: the path split in two, the
    repository was mapped and the probe was answered. *)
Lemma hit_is_routed (env : Env) (st : State) (w : http.ResponseWriter)
  (r : Request) :
  stopped (mainHandler env st w r) = ExitHit →
  ∃ repoName rest remoteBase respHead,
    strings.SplitN (strings.TrimPrefix (URLPath r) "/r/") "/" 2 = [repoName; rest]
    ∧ getRepoMap env repoName = (remoteBase, None)
    ∧ Head env (targetUrlOf remoteBase rest) = Some respHead.
Proof.
  unfold mainHandler.
  destruct (strings.SplitN _ _ _) as [|repoName [|rest [|x l]]] eqn:Hs;
    cbn [lookup list_lookup]; try discriminate.
  - destruct (getRepoMap env repoName) as [remoteBase [e|]] eqn:Hr;
      [discriminate|].
    destruct (Head env (targetUrlOf remoteBase rest)) as [respHead|] eqn:Hh;
      [|discriminate].
    intros _. exists repoName, rest, remoteBase, respHead. auto.
  - exfalso. clear -Hs. unfold strings.SplitN, strings.splitLoop in Hs.
    destruct (strings.Index _ _); discriminate.
Qed.

(** * Further properties of the code *)

(** ** Splitting the path (lines 136-139) *)

Lemma take_app (a b : string) : strings.take (String.length a) (a ++ b) = a.
Proof. induction a as [|c a IH]; simpl; [now destruct b | now rewrite IH]. Qed.

Lemma drop_app (a b : string) : strings.drop (String.length a) (a ++ b) = b.
Proof. induction a as [|c a IH]; simpl; auto. Qed.

Lemma TrimPrefix_app (prefix s : string) :
  strings.TrimPrefix (prefix ++ s) prefix = s.
Proof.
  unfold strings.TrimPrefix.
  assert (H : strings.HasPrefix (prefix ++ s) prefix = true).
  { induction prefix as [|c p IH]; simpl; [reflexivity|].
    now rewrite Ascii.eqb_refl. }
  now rewrite H, drop_app.
Qed.

Lemma Index_first_slash (a b : string) :
  strings.Contains a "/" = false →
  strings.Index (a ++ "/" ++ b) "/" = Some (String.length a).
Proof.
  unfold strings.Contains. induction a as [|c a IH]; simpl; [reflexivity|].
  destruct (Ascii.eqb c "/"); [discriminate|].
  destruct (strings.Index a "/") eqn:E; [discriminate|].
  intros _. rewrite IH; [reflexivity|]. reflexivity.
Qed.

Lemma Index_slash_inv (s : string) (m : nat) :
  strings.Index s "/" = Some m →
  s = strings.take m s ++ "/" ++ strings.drop (m + 1) s
  ∧ strings.Contains (strings.take m s) "/" = false
  ∧ String.length (strings.take m s) = m.
Proof.
  revert m. induction s as [|c s IH]; intros m; simpl; [discriminate|].
  destruct (Ascii.eqb_spec c "/") as [->|Hne].
  - intros [= <-]. simpl. auto.
  - destruct (strings.Index s "/") as [k|] eqn:E; [|discriminate].
    intros [= <-]. destruct (IH k eq_refl) as (H1 & H2 & H3).
    simpl. split_and!.
    + change (String c s = String c (strings.take k s ++ "/" ++ strings.drop (k + 1) s)).
      f_equal. exact H1.
    + unfold strings.Contains in *. simpl.
      destruct (Ascii.eqb_spec c "/"); [contradiction|].
      destruct (strings.Index (strings.take k s) "/"); [discriminate|reflexivity].
    + now rewrite H3.
Qed.

(** X1.  The path is cut once, at its first slash after [/r/]: a
    repository name without a slash and any rest, slashes included, come
    back from [/r/<repository>/<rest>] exactly as they went in; and whenever
    the cut gives two pieces, the first holds no slash and the trimmed path
    is the two pieces joined by one slash. *)
Theorem route_splits_once_at_the_first_slash (repoName rest : string) :
  (strings.Contains repoName "/" = false →
   strings.SplitN (strings.TrimPrefix ("/r/" ++ repoName ++ "/" ++ rest) "/r/") "/" 2
   = [repoName; rest])
  ∧ (∀ repoUrl,
       strings.SplitN repoUrl "/" 2 = [repoName; rest] →
       repoUrl = repoName ++ "/" ++ rest
       ∧ strings.Contains repoName "/" = false).
Proof.
  split.
  - intros Hc. rewrite TrimPrefix_app. cbn [strings.SplitN strings.splitLoop].
    rewrite (Index_first_slash repoName rest Hc).
    rewrite take_app. cbn [String.length].
    assert (Hd : ∀ a, strings.drop (String.length a + 1) (a ++ "/" ++ rest) = rest).
    { induction a as [|c a IH]; simpl; auto. }
    now rewrite Hd.
  - intros repoUrl. cbn [strings.SplitN strings.splitLoop].
    destruct (strings.Index repoUrl "/") as [m|] eqn:E; [|discriminate].
    destruct (Index_slash_inv repoUrl m E) as (H1 & H2 & H3).
    cbn [String.length]. intros [= Ha Hb]. subst repoName rest.
    split; [exact H1 | exact H2].
Qed.

(** ** The target URL (lines 147-148) *)

Lemma length_app_slash (b : string) :
  String.length (b ++ "/") = S (String.length b).
Proof. induction b as [|c b IH]; simpl; auto. Qed.

Lemma drop_to_slash (b : string) :
  strings.drop (String.length b) (b ++ "/") = "/".
Proof. apply drop_app. Qed.

Lemma TrimSuffix_app_slash (b : string) : strings.TrimSuffix (b ++ "/") "/" = b.
Proof.
  unfold strings.TrimSuffix, strings.HasSuffix.
  rewrite length_app_slash. cbn [String.length].
  replace (S (String.length b) - 1)%nat with (String.length b) by lia.
  rewrite drop_to_slash, take_app. reflexivity.
Qed.

(** X2.  One trailing slash of the mapped base URL, and only one, is
    dropped before the rest is appended: a base written with a trailing
    slash and the same base written without it give the same target URL. *)
Theorem targetUrlOf_ignores_one_trailing_slash (base rest : string) :
  targetUrlOf (base ++ "/") rest = base ++ "/" ++ rest
  ∧ (strings.HasSuffix base "/" = false →
     targetUrlOf base rest = base ++ "/" ++ rest).
Proof.
  unfold targetUrlOf. split.
  - now rewrite TrimSuffix_app_slash.
  - intros H. unfold strings.TrimSuffix. now rewrite H.
Qed.

(** ** The probe's values (lines 156-163) *)

Lemma uintLoop_range (s : string) :
  ∀ n, (0 ≤ n ≤ strconv.maxUint64)%Z →
  (0 ≤ (strconv.uintLoop n s).1 ≤ strconv.maxUint64)%Z.
Proof.
  induction s as [|c s IH]; intros n Hn; simpl; [exact Hn|].
  unfold strconv.digit_of.
  destruct ((48 <=? Z.of_nat (nat_of_ascii c)) && (Z.of_nat (nat_of_ascii c) <=? 57))%Z
    eqn:E; [|unfold strconv.maxUint64; simpl; lia].
  apply andb_true_iff in E as [H1%Z.leb_le H2%Z.leb_le].
  destruct (strconv.cutoffMul <=? n)%Z; [unfold strconv.maxUint64; simpl; lia|].
  destruct (Z.ltb_spec strconv.maxUint64 (n * 10 + (Z.of_nat (nat_of_ascii c) - 48)));
    [unfold strconv.maxUint64; simpl; lia|].
  apply IH. lia.
Qed.

Lemma ParseUint_range (s : string) :
  (0 ≤ (strconv.ParseUint s).1 ≤ strconv.maxUint64)%Z.
Proof.
  unfold strconv.ParseUint, strconv.parseUint. cbn [fst].
  destruct s as [|c s]; [unfold strconv.maxUint64; simpl; lia|].
  apply uintLoop_range. unfold strconv.maxUint64. lia.
Qed.

Lemma ParseInt_range (s : string) :
  (- 2 ^ 63 ≤ (strconv.ParseInt s).1 ≤ 2 ^ 63 - 1)%Z.
Proof.
  unfold strconv.ParseInt. destruct s as [|c s]; [simpl; lia|].
  cbv zeta.
  set (body := if (Ascii.eqb c "+" || Ascii.eqb c "-")%bool then s else String c s).
  pose proof (ParseUint_range body) as Hr.
  destruct (strconv.ParseUint body) as [un err]. cbn [fst] in Hr.
  unfold strconv.maxUint64 in Hr.
  destruct (err && strconv.isSyntaxError body); [simpl; lia|].
  unfold strconv.cutoff64.
  destruct (Ascii.eqb c "-"); cbn [negb andb].
  - destruct (Z.ltb_spec (2 ^ 63) un); cbn [fst]; lia.
  - destruct (Z.leb_spec (2 ^ 63) un); cbn [fst]; lia.
Qed.

(** X3.  The content length read off the probe always fits an [int64]; it
    is 0 when the header is absent, and the content type is never empty. *)
Theorem readProbe_values_are_in_range (h : http.Header) :
  (- 2 ^ 63 ≤ contentLength (readProbe h) ≤ 2 ^ 63 - 1)%Z
  ∧ (http.ContentLength h = "" → contentLength (readProbe h) = 0%Z)
  ∧ mimeType (readProbe h) ≠ "".
Proof.
  split; [apply ParseInt_range|]. split.
  - intros H. unfold readProbe; simpl. now rewrite H.
  - unfold readProbe; simpl.
    destruct (String.eqb_spec (http.ContentType h) ""); [discriminate|assumption].
Qed.

(** ** [getClientIP] (lines 119-132) *)

(** X4.  When the request carries a non-empty [X-Forwarded-For], the
    client address is the trimmed text before its first comma, whatever
    that text is, and [RemoteAddr] is not looked at; without the header it
    is [RemoteAddr], normalised when it parses as an address and port. *)
Theorem getClientIP_prefers_the_forwarded_header
  (TrimSpace : string → string) (ParseAddrPort : string → option string)
  (forwardedFor remoteAddr : string) :
  (forwardedFor ≠ "" →
   getClientIP TrimSpace ParseAddrPort forwardedFor remoteAddr
   = TrimSpace (match strings.Index forwardedFor "," with
                | Some m => strings.take m forwardedFor
                | None => forwardedFor
                end))
  ∧ (forwardedFor = "" →
     getClientIP TrimSpace ParseAddrPort forwardedFor remoteAddr
     = match ParseAddrPort remoteAddr with
       | Some ip => ip
       | None => remoteAddr
       end).
Proof.
  unfold getClientIP, strings_Split. split.
  - intros Hne. destruct (String.eqb_spec forwardedFor ""); [contradiction|].
    cbn [negb]. destruct forwardedFor as [|c s]; [contradiction|].
    cbn [String.length strings.splitLoop].
    destruct (strings.Index (String c s) ","); reflexivity.
  - intros ->. reflexivity.
Qed.

(** ** Every way a request can end *)

(** The MISS path, exit by exit. *)
Lemma miss_cases env st w repoName rest targetUrl cachePath p tr :
  let res := mainHandler_miss env st w repoName rest targetUrl cachePath p tr in
  (Get env targetUrl = None
   ∧ res = mkResult ExitFetchError st
             (http.Error w "FETCH ERROR" http.StatusInternalServerError)
             (missTrace tr targetUrl ++ [ELog "ERR_GET"]))
  ∨ (∃ respGet,
       Get env targetUrl = Some respGet
       ∧ (http.StatusBadRequest ≤ http.StatusCode respGet)%Z
       ∧ res = mkResult ExitUpstreamError st
                 (http.Error w ("UPSTREAM ERROR " ++ http.Status respGet)
                    (http.StatusCode respGet))
                 (missTrace tr targetUrl))
  ∨ (∃ respGet,
       Get env targetUrl = Some respGet
       ∧ (http.StatusCode respGet < http.StatusBadRequest)%Z
       ∧ os.Create env st cachePath = None
       ∧ res = mkResult ExitCreateError st
                 (http.Error w "CACHE CREATE ERROR" http.StatusInternalServerError)
                 (missTrace tr targetUrl ++ [ELog "ERR_CREATECACHEPATH"]))
  ∨ (∃ respGet file w' f' e,
       Get env targetUrl = Some respGet
       ∧ (http.StatusCode respGet < http.StatusBadRequest)%Z
       ∧ os.Create env st cachePath = Some file
       ∧ io.Copy (http.SetContentType w (mimeType p), file) (http.Body respGet)
         = ((w', f'), Some e)
       ∧ res = mkResult ExitStreamError (withFiles st (os.store f')) w'
                 (missTrace tr targetUrl
                  ++ [ELog "DBG_HEAD"; ELog "DBG_RESP"; ELog "ERR_STREAM"]))
  ∨ (∃ respGet file w' f',
       Get env targetUrl = Some respGet
       ∧ (http.StatusCode respGet < http.StatusBadRequest)%Z
       ∧ os.Create env st cachePath = Some file
       ∧ io.Copy (http.SetContentType w (mimeType p), file) (http.Body respGet)
         = ((w', f'), None)
       ∧ let uc := updateCache env (withFiles st (os.store f')) repoName rest
                     (persistedLastMod respGet) (persistedSize p respGet)
                     (persistedEtag respGet) in
         res = mkResult ExitEnd uc.1 w'
                 (missTrace tr targetUrl
                  ++ [ELog "DBG_HEAD"; ELog "DBG_RESP"; ELog "DBG_CACHEPAYLOAD"]
                  ++ match uc.2 with
                     | Some _ => updateCacheLog env ++ [ELog "ERR_UPDATECACHE"]
                     | None => []
                     end)).
Proof.
  unfold mainHandler_miss, missTrace, persistedLastMod, persistedSize, persistedEtag.
  destruct (Get env targetUrl) as [respGet|]; cbn zeta.
  2: { left. split; reflexivity. }
  destruct (Z.leb_spec http.StatusBadRequest (http.StatusCode respGet)) as [Hc|Hc].
  { right; left. exists respGet. split_and!; auto. }
  destruct (os.Create env st cachePath) as [file|].
  2: { right; right; left. exists respGet. split_and!; auto. }
  destruct (io.Copy _ _) as [[w' f'] [e|]] eqn:HC.
  { right; right; right; left. exists respGet, file, w', f', e.
    split_and!; auto. now rewrite <- !app_assoc. }
  right; right; right; right. exists respGet, file, w', f'.
  split_and!; auto.
  destruct (updateCache _ _ _ _ _ _ _) as [st' [e|]]; cbn [fst snd];
    now rewrite <- !app_assoc.
Qed.

(** The handler, exit by exit, down to the choice between hit and miss. *)
Lemma handler_cases env st w r :
  let res := mainHandler env st w r in
  (res = mkResult Panic st w [])
  ∨ (∃ repoName rest e,
       strings.SplitN (strings.TrimPrefix (URLPath r) "/r/") "/" 2 = [repoName; rest]
       ∧ (getRepoMap env repoName).2 = Some e
       ∧ res = mkResult ExitNotFound st
                 (http.Error w "NOT FOUND" http.StatusNotFound)
                 [ELog "ERR_GETREPOMAP"; ECapture])
  ∨ (∃ repoName rest remoteBase,
       strings.SplitN (strings.TrimPrefix (URLPath r) "/r/") "/" 2 = [repoName; rest]
       ∧ getRepoMap env repoName = (remoteBase, None)
       ∧ Head env (targetUrlOf remoteBase rest) = None
       ∧ res = mkResult ExitHeadError st
                 (http.Error w "INTERNAL SERVER ERROR" http.StatusInternalServerError)
                 [EHead (targetUrlOf remoteBase rest); ELog "ERR_HEAD"])
  ∨ (∃ repoName rest remoteBase respHead,
       strings.SplitN (strings.TrimPrefix (URLPath r) "/r/") "/" 2 = [repoName; rest]
       ∧ getRepoMap env repoName = (remoteBase, None)
       ∧ Head env (targetUrlOf remoteBase rest) = Some respHead).
Proof.
  cbv zeta. unfold mainHandler.
  destruct (strings.SplitN _ _ _) as [|repoName [|rest [|x l]]] eqn:Hs;
    cbn [lookup list_lookup]; auto.
  - destruct (getRepoMap env repoName) as [remoteBase [e|]] eqn:Hr.
    { right; left. exists repoName, rest, e. rewrite Hr. split_and!; reflexivity. }
    destruct (Head env (targetUrlOf remoteBase rest)) as [respHead|] eqn:Hh.
    + right; right; right. exists repoName, rest, remoteBase, respHead.
      split_and!; auto.
    + right; right; left. exists repoName, rest, remoteBase. split_and!; auto.
  - exfalso. clear -Hs. unfold strings.SplitN, strings.splitLoop in Hs.
    destruct (strings.Index _ _); discriminate.
Qed.

Lemma http_Error_status (w : http.ResponseWriter) (msg : string) (code : Z) :
  http.status w = None → http.status (http.Error w msg code) = Some code.
Proof.
  intros Hs. unfold http.Error, http.ResponseWrite, http.WriteHeader,
    http.SetContentType. simpl. rewrite Hs. simpl.
  now destruct (takeRoom _ _) as [[? ?] ?].
Qed.

Lemma Create_nonempty (env : Env) (st : State) (path : string) (f : os.File) :
  os.Create env st path = Some f → path ≠ "".
Proof.
  unfold os.Create. intros H ->. simpl in H. discriminate.
Qed.

(** What the copy of the MISS path leaves, for a file just created. *)
Lemma copy_after_create env st w cachePath mime file src w' f' err :
  os.Create env st cachePath = Some file →
  io.Copy (http.SetContentType w mime, file) src = ((w', f'), err) →
  ∃ dw df,
    http.sent w' = (http.sent w ++ dw)%list
    ∧ http.finalStatus w' = http.finalStatus w
    ∧ os.store f' = <[cachePath := df]> (files st)
    ∧ df `prefix_of` dw
    ∧ dw `prefix_of` io.ReadAll src
    ∧ (err = None → dw = io.ReadAll src ∧ df = io.ReadAll src).
Proof.
  intros Hcreate HC.
  destruct (Create_spec env st cachePath file Hcreate) as (Hst & Hn & Hd).
  assert (Hc : os.store file !! os.name file = Some []).
  { rewrite Hst, Hn. apply lookup_insert_eq. }
  destruct (Copy_tee src (http.SetContentType w mime) file [] Hc)
    as (w2 & f2 & err2 & dw & df & HC2 & Hs & Hct & Hfs & Hst' & Hn' & Hp1 & Hp2 & Hiff & Hall).
  rewrite HC in HC2. injection HC2 as <- <- <-.
  exists dw, df. split_and!; auto.
  rewrite Hst', Hn, Hst, insert_insert_eq. reflexivity.
Qed.

(** X5.  A request contacts the upstream at most twice and never retries:
    at most one probe, at most one full fetch, and a full fetch only after
    a probe and to the URL that was probed.  A request that panics or finds
    no mapping contacts nobody; a hit and a failed probe issue no fetch;
    every other run issued exactly the one fetch. *)
Theorem at_most_one_probe_and_one_fetch (env : Env) (st : State)
  (w : http.ResponseWriter) (r : Request) :
  let res := mainHandler env st w r in
  (length (probes (trace res)) ≤ 1)%nat
  ∧ (fetches (trace res) = [] ∨ fetches (trace res) = probes (trace res))
  ∧ match stopped res with
    | Panic | ExitNotFound => probes (trace res) = []
    | ExitHit | ExitHeadError =>
        length (probes (trace res)) = 1%nat ∧ fetches (trace res) = []
    | _ => length (fetches (trace res)) = 1%nat
    end.
Proof.
  intros res.
  destruct (handler_cases env st w r)
    as [H | [(rn & rs & e & Hs & Hr & H) | [(rn & rs & rb & Hs & Hr & Hh & H)
       | (rn & rs & rb & rh & Hs & Hr & Hh)]]]; fold res in H || idtac.
  1-3: rewrite H; cbn; auto.
  subst res. rewrite (mainHandler_routed env st w r rn rs rb rh Hs Hr Hh).
  set (tr0 := ([EHead (targetUrlOf rb rs)] ++ _)%list).
  assert (Htr0 : probes tr0 = [targetUrlOf rb rs] ∧ fetches tr0 = []).
  { subst tr0. destruct ((prepareCacheDir env st rn rs).2); auto. }
  destruct Htr0 as [Hp Hf].
  destruct (servesFromCache _ _ _ _).
  { cbn [trace stopped]. unfold probes, fetches in *.
    rewrite !omap_app, Hp, Hf. cbn. auto. }
  set (st1 := (prepareCacheDir env st rn rs).1.1).
  set (cp := (prepareCacheDir env st rn rs).1.2).
  destruct (miss_cases env st1 w rn rs (targetUrlOf rb rs) cp (readProbe rh) tr0)
    as [[_ H] | [(g & _ & _ & H) | [(g & _ & _ & _ & H)
       | [(g & f & w' & f' & e & _ & _ & _ & _ & H)
         | (g & f & w' & f' & _ & _ & _ & _ & H)]]]];
    cbv zeta in H; rewrite H; cbn [trace stopped]; unfold missTrace;
    unfold probes, fetches in *;
    try (destruct ((updateCache _ _ _ _ _ _ _).2));
    unfold updateCacheLog;
    try (destruct (countFails env); [|destruct (beginFails env)]);
    rewrite !omap_app, Hp, Hf; cbn; auto.
Qed.

(** X6.  The status line of every exit, for a response that had none when
    the handler was called: 404 when the repository lookup fails, 500 when
    the probe, the fetch or the creation of the cache file fails; when the
    upstream answers the one fetch of the request with a code of 400 or
    more, that very code, with [UPSTREAM ERROR] and the upstream's status
    text as the body; 200 once the copy has started, and nothing written by
    the handler itself on a hit (left to [http.ServeFile]) or a panic. *)
Theorem status_of_every_exit (env : Env) (st : State)
  (w : http.ResponseWriter) (r : Request) :
  http.status w = None →
  let res := mainHandler env st w r in
  match stopped res with
  | Panic | ExitHit => response res = w
  | ExitNotFound => http.status (response res) = Some http.StatusNotFound
  | ExitHeadError | ExitFetchError | ExitCreateError =>
      http.status (response res) = Some http.StatusInternalServerError
  | ExitUpstreamError =>
      ∃ url respGet,
        fetches (trace res) = [url]
        ∧ Get env url = Some respGet
        ∧ (http.StatusBadRequest ≤ http.StatusCode respGet)%Z
        ∧ http.status (response res) = Some (http.StatusCode respGet)
        ∧ response res
          = http.Error w ("UPSTREAM ERROR " ++ http.Status respGet)
              (http.StatusCode respGet)
  | ExitStreamError | ExitEnd => http.finalStatus (response res) = 200%Z
  end.
Proof.
  intros Hw res.
  destruct (handler_cases env st w r)
    as [H | [(rn & rs & e & Hs & Hr & H) | [(rn & rs & rb & Hs & Hr & Hh & H)
       | (rn & rs & rb & rh & Hs & Hr & Hh)]]]; fold res in H || idtac.
  1-3: rewrite H; cbn [stopped response]; auto using http_Error_status.
  subst res. rewrite (mainHandler_routed env st w r rn rs rb rh Hs Hr Hh).
  destruct (servesFromCache _ _ _ _); [reflexivity|].
  set (st1 := (prepareCacheDir env st rn rs).1.1).
  set (cp := (prepareCacheDir env st rn rs).1.2).
  set (tr0 := ([EHead (targetUrlOf rb rs)] ++ _)%list).
  assert (H200 : http.finalStatus w = 200%Z).
  { unfold http.finalStatus. now rewrite Hw. }
  assert (Hf0 : fetches tr0 = []).
  { subst tr0. now destruct ((prepareCacheDir env st rn rs).2). }
  destruct (miss_cases env st1 w rn rs (targetUrlOf rb rs) cp (readProbe rh) tr0)
    as [[_ H] | [(g & Hg & Hc & H) | [(g & _ & _ & _ & H)
       | [(g & f & w' & f' & e & _ & _ & Hcr & HC & H)
         | (g & f & w' & f' & _ & _ & Hcr & HC & H)]]]];
    cbv zeta in H; rewrite H; cbn [stopped response trace];
    auto using http_Error_status.
  - exists (targetUrlOf rb rs), g. split_and!; auto using http_Error_status.
    unfold missTrace, fetches in *. now rewrite omap_app, Hf0.
  - destruct (copy_after_create _ _ _ _ _ _ _ _ _ _ Hcr HC) as (dw & df & _ & Hfs & _).
    congruence.
  - destruct (copy_after_create _ _ _ _ _ _ _ _ _ _ Hcr HC) as (dw & df & _ & Hfs & _).
    congruence.
Qed.

(** The first request of the scenarios ends with a 200; against an
    upstream that answers 503 the client gets the 503. *)
Lemma status_of_every_exit_witness :
  http.finalStatus (response (serve envOk emptyState exampleRequest)) = 200%Z
  ∧ http.status (response (serve env503 emptyState exampleRequest)) = Some 503%Z.
Proof.
  split.
  - exact (status_of_every_exit envOk emptyState (http.newResponseWriter None)
             exampleRequest eq_refl).
  - destruct (status_of_every_exit env503 emptyState (http.newResponseWriter None)
                exampleRequest eq_refl : ∃ url respGet, _)
      as (url & respGet & Hf & Hg & _ & Hs & _).
    injection Hf as <-. injection Hg as <-. exact Hs.
Defined.

(** ** What a request leaves alone *)

Lemma updateCache_frame (env : Env) (st : State)
  (repo itemPath lastMod_ : string) (fileSize : Z) (etag_ : string) :
  let st' := (updateCache env st repo itemPath lastMod_ fileSize etag_).1 in
  dirs st' = dirs st
  ∧ (length (rows st) ≤ length (rows st'))%nat
  ∧ (∀ repo' itemPath', (repo', itemPath') ≠ (repo, itemPath) →
       selectItems st' repo' itemPath' = selectItems st repo' itemPath').
Proof.
  cbv zeta.
  destruct (updateCache_cases env st repo itemPath lastMod_ fileSize etag_)
    as [[_ Hst] | [(_ & _ & Hst) | (_ & _ & Hst)]]; rewrite Hst.
  - auto.
  - split_and!; auto.
    + simpl. rewrite length_app. lia.
    + intros. now apply select_insert_other.
  - split_and!; auto.
    + simpl. now rewrite length_map.
    + intros. now apply select_update_other.
Qed.

Lemma prepareCacheDir_path (env : Env) (st : State) (repo itemPath : string) :
  let pc := prepareCacheDir env st repo itemPath in
  (pc.1.2 = "" ∨ pc.1.2 = filepath.Join [cacheDir env; repo; itemPath])
  ∧ dirs st ⊆ dirs pc.1.1.
Proof.
  destruct (prepareCacheDir_cases env st repo itemPath)
    as (st1 & [[e ->] | [-> _]] & _ & _ & _ & Hd); simpl; auto.
Qed.

(** X7.  Whatever happens, a request touches one blob and one descriptor
    key at most.  Every file other than the cache path of the request is
    as it was, and so are the rows of every other key; no file and no
    directory is removed, and the index never gets shorter. *)
Theorem request_touches_only_its_own_key (env : Env) (st : State)
  (w : http.ResponseWriter) (r : Request) :
  let res := mainHandler env st w r in
  (∀ repoName rest,
     strings.SplitN (strings.TrimPrefix (URLPath r) "/r/") "/" 2 = [repoName; rest] →
     (∀ path', path' ≠ filepath.Join [cacheDir env; repoName; rest] →
        files (after res) !! path' = files st !! path')
     ∧ (∀ repo' itemPath', (repo', itemPath') ≠ (repoName, rest) →
          selectItems (after res) repo' itemPath' = selectItems st repo' itemPath'))
  ∧ (∀ path', is_Some (files st !! path') → is_Some (files (after res) !! path'))
  ∧ dirs st ⊆ dirs (after res)
  ∧ (length (rows st) ≤ length (rows (after res)))%nat.
Proof.
  intros res.
  destruct (handler_cases env st w r)
    as [H | [(rn & rs & e & Hs & Hr & H) | [(rn & rs & rb & Hs & Hr & Hh & H)
       | (rn & rs & rb & rh & Hs & Hr & Hh)]]]; fold res in H || idtac.
  1-3: rewrite H; cbn [after]; split_and!; auto.
  assert (Hgoal :
    (∀ path', path' ≠ filepath.Join [cacheDir env; rn; rs] →
        files (after res) !! path' = files st !! path')
    ∧ (∀ repo' itemPath', (repo', itemPath') ≠ (rn, rs) →
          selectItems (after res) repo' itemPath' = selectItems st repo' itemPath')
    ∧ (∀ path', is_Some (files st !! path') → is_Some (files (after res) !! path'))
    ∧ dirs st ⊆ dirs (after res)
    ∧ (length (rows st) ≤ length (rows (after res)))%nat).
  2: { destruct Hgoal as (G1 & G2 & G3 & G4 & G5). split_and!; auto.
       intros repoName rest Heq. rewrite Hs in Heq. injection Heq as <- <-. auto. }
  subst res. rewrite (mainHandler_routed env st w r rn rs rb rh Hs Hr Hh).
  destruct (prepareCacheDir_keeps env st rn rs) as (Hrows & _ & Hfiles).
  destruct (prepareCacheDir_path env st rn rs) as (Hcp & Hdirs).
  set (st1 := (prepareCacheDir env st rn rs).1.1) in *.
  set (cp := (prepareCacheDir env st rn rs).1.2) in *.
  set (tr0 := ([EHead (targetUrlOf rb rs)] ++ _)%list).
  assert (Hsel : ∀ a b, selectItems st1 a b = selectItems st a b).
  { intros. unfold selectItems. now rewrite Hrows. }
  assert (Hsame : ∀ s : State, files s = files st1 → rows s = rows st1 →
            dirs s = dirs st1 →
    (∀ path', path' ≠ filepath.Join [cacheDir env; rn; rs] →
        files s !! path' = files st !! path')
    ∧ (∀ repo' itemPath', (repo', itemPath') ≠ (rn, rs) →
          selectItems s repo' itemPath' = selectItems st repo' itemPath')
    ∧ (∀ path', is_Some (files st !! path') → is_Some (files s !! path'))
    ∧ dirs st ⊆ dirs s
    ∧ (length (rows st) ≤ length (rows s))%nat).
  { intros s Hf Hr' Hd. rewrite Hf, Hfiles, Hd, Hr', Hrows. split_and!; auto.
    intros. unfold selectItems. now rewrite Hr', Hrows. }
  destruct (servesFromCache _ _ _ _); [now apply Hsame|].
  destruct (miss_cases env st1 w rn rs (targetUrlOf rb rs) cp (readProbe rh) tr0)
    as [[_ H] | [(g & _ & Hc & H) | [(g & _ & _ & _ & H)
       | [(g & f & w' & f' & e & _ & _ & Hcr & HC & H)
         | (g & f & w' & f' & _ & _ & Hcr & HC & H)]]]];
    cbv zeta in H; rewrite H; cbn [after]; try (now apply Hsame).
  - destruct (copy_after_create _ _ _ _ _ _ _ _ _ _ Hcr HC) as (dw & df & _ & _ & Hst' & _).
    pose proof (Create_nonempty _ _ _ _ Hcr) as Hne.
    destruct Hcp as [Hcp|Hcp]; [contradiction|].
    cbn [withFiles files rows dirs]. rewrite Hst', Hfiles, Hrows.
    split_and!.
    + intros path' Hp. rewrite lookup_insert_ne; [reflexivity|]. congruence.
    + intros repo' ip' Hne'. unfold selectItems. cbn [rows withFiles].
      now rewrite Hrows.
    + intros path' [x Hx]. destruct (decide (cp = path')) as [<-|Hd].
      * rewrite lookup_insert_eq. eauto.
      * rewrite lookup_insert_ne by exact Hd. eauto.
    + exact Hdirs.
    + lia.
  - destruct (copy_after_create _ _ _ _ _ _ _ _ _ _ Hcr HC) as (dw & df & _ & _ & Hst' & _).
    pose proof (Create_nonempty _ _ _ _ Hcr) as Hne.
    destruct Hcp as [Hcp|Hcp]; [contradiction|].
    pose proof (updateCache_frame env (withFiles st1 (os.store f')) rn rs
      (persistedLastMod g) (persistedSize (readProbe rh) g) (persistedEtag g))
      as (Ud & Ul & Us).
    rewrite updateCache_files, Ud.
    cbn [withFiles files rows dirs] in *. rewrite Hst', Hfiles in *.
    split_and!.
    + intros path' Hp. rewrite lookup_insert_ne; [reflexivity|]. congruence.
    + intros repo' ip' Hne'. rewrite (Us repo' ip' Hne').
      unfold selectItems. cbn [rows withFiles]. now rewrite Hrows.
    + intros path' [x Hx]. destruct (decide (cp = path')) as [<-|Hd].
      * rewrite lookup_insert_eq. eauto.
      * rewrite lookup_insert_ne by exact Hd. eauto.
    + exact Hdirs.
    + rewrite <- Hrows. exact Ul.
Qed.

(** ** Writing a descriptor, then looking it up *)

Lemma updateCache_first_row env st repo itemPath lastMod_ fileSize etag_ :
  (updateCache env st repo itemPath lastMod_ fileSize etag_).2 = None →
  ∃ d ds,
    selectItems (updateCache env st repo itemPath lastMod_ fileSize etag_).1
      repo itemPath = d :: ds
    ∧ lastmodified d = lastMod_ ∧ filesize d = fileSize ∧ etag d = etag_.
Proof.
  intros He.
  destruct (updateCache_cases env st repo itemPath lastMod_ fileSize etag_)
    as [[He' _] | [(_ & Hsel & Hst) | (_ & Hsel & Hst)]]; [congruence | |];
    rewrite Hst.
  - rewrite select_insert_same, Hsel. simpl. eauto 10.
  - rewrite select_update_same.
    destruct (selectItems st repo itemPath) as [|d ds]; [congruence|].
    simpl. eauto 10.
Qed.

Lemma itemInCache_first_row env st repo itemPath d ds lm sz et :
  selectFails env = false →
  selectItems st repo itemPath = d :: ds →
  itemInCache env st repo itemPath lm sz et
  = (bool_decide ((lm, sz, et) = (lastmodified d, filesize d, etag d)), None).
Proof.
  intros Hf Hsel. unfold itemInCache, queryRow. rewrite Hf, Hsel.
  destruct (String.eqb_spec (lastmodified d) lm) as [H1|H1];
  destruct (Z.eqb_spec (filesize d) sz) as [H2|H2];
  destruct (String.eqb_spec (etag d) et) as [H3|H3]; cbn [andb];
    case_bool_decide as Hd; try reflexivity;
    solve [ exfalso; apply Hd; congruence
          | exfalso; injection Hd as -> -> ->; congruence ].
Qed.

Lemma itemInCache_after_updateCache env st repo itemPath lastMod_ fileSize etag_ :
  selectFails env = false →
  (updateCache env st repo itemPath lastMod_ fileSize etag_).2 = None →
  ∀ lm sz et,
    itemInCache env (updateCache env st repo itemPath lastMod_ fileSize etag_).1
      repo itemPath lm sz et
    = (bool_decide ((lm, sz, et) = (lastMod_, fileSize, etag_)), None).
Proof.
  intros Hf He lm sz et.
  destruct (updateCache_first_row _ _ _ _ _ _ _ He) as (d & ds & Hsel & H1 & H2 & H3).
  rewrite (itemInCache_first_row _ _ _ _ d ds lm sz et Hf Hsel).
  now rewrite H1, H2, H3.
Qed.

(** X8.  A descriptor written by [updateCache] is the one [itemInCache]
    finds: after a call that returned no error, and whether the key had no
    row, one row or several, the lookup of the key answers [true] for the
    three values just written and [false] for any other three, and the
    lookup of any other key answers as before. *)
Theorem updateCache_then_itemInCache (env : Env) (st : State)
  (repo itemPath lastMod_ : string) (fileSize : Z) (etag_ : string) :
  selectFails env = false →
  (updateCache env st repo itemPath lastMod_ fileSize etag_).2 = None →
  let st' := (updateCache env st repo itemPath lastMod_ fileSize etag_).1 in
  (∀ lm sz et,
     itemInCache env st' repo itemPath lm sz et
     = (bool_decide ((lm, sz, et) = (lastMod_, fileSize, etag_)), None))
  ∧ (∀ repo' itemPath' lm sz et,
       (repo', itemPath') ≠ (repo, itemPath) →
       itemInCache env st' repo' itemPath' lm sz et
       = itemInCache env st repo' itemPath' lm sz et).
Proof.
  intros Hf He st'. split.
  - now apply itemInCache_after_updateCache.
  - intros repo' itemPath' lm sz et Hne. unfold itemInCache.
    destruct (updateCache_frame env st repo itemPath lastMod_ fileSize etag_)
      as (_ & _ & Hsel).
    subst st'. now rewrite (Hsel repo' itemPath' Hne).
Qed.

(** A descriptor written over a different one, then looked up. *)
Lemma updateCache_then_itemInCache_witness :
  itemInCache envOk
    (updateCache envOk descriptorOnly "pkgs" "a/b.tar" "Tue" 4 "xyz").1
    "pkgs" "a/b.tar" "Tue" 4 "xyz" = (true, None)
  ∧ itemInCache envOk
      (updateCache envOk descriptorOnly "pkgs" "a/b.tar" "Tue" 4 "xyz").1
      "pkgs" "a/b.tar" "Mon" 3 "abc" = (false, None).
Proof.
  pose proof (updateCache_then_itemInCache envOk descriptorOnly
                "pkgs" "a/b.tar" "Tue" 4 "xyz" eq_refl eq_refl) as [H _].
  split; [exact (H "Tue" 4%Z "xyz") | exact (H "Mon" 3%Z "abc")].
Defined.

(** ** A MISS that runs to its end *)

Lemma updateCache_fails_iff env st repo itemPath lastMod_ fileSize etag_ :
  (updateCache env st repo itemPath lastMod_ fileSize etag_).2 = None ↔
  countFails env = false ∧ beginFails env = false
  ∧ execFails env = false ∧ commitFails env = false.
Proof.
  unfold updateCache, writeItem.
  destruct (countFails env), (beginFails env), (execFails env), (commitFails env);
    simpl; split; try tauto; try discriminate; intros (? & ? & ? & ?); discriminate.
Qed.

(** [ERR_TXSTART] is logged exactly by a call that has counted and cannot
    open its transaction; the call then fails and leaves the index alone. *)
Lemma updateCacheLog_spec env st repo itemPath lastMod_ fileSize etag_ :
  (updateCacheLog env = [ELog "ERR_TXSTART"]
   ∧ countFails env = false ∧ beginFails env = true
   ∧ updateCache env st repo itemPath lastMod_ fileSize etag_ = (st, Some ErrDB))
  ∨ (updateCacheLog env = []
     ∧ (countFails env = true ∨ beginFails env = false)).
Proof.
  unfold updateCacheLog, updateCache, writeItem.
  destruct (countFails env), (beginFails env); auto.
Qed.

#[export] Instance event_eq_dec : EqDecision event.
Proof. solve_decision. Defined.

Lemma itemInCache_rows env (s s' : State) repo itemPath lm sz et :
  rows s = rows s' →
  itemInCache env s repo itemPath lm sz et
  = itemInCache env s' repo itemPath lm sz et.
Proof. intros H. unfold itemInCache, selectItems. now rewrite H. Qed.

Section Ended.

Variables (env : Env) (st : State) (w : http.ResponseWriter) (r : Request).
Variables (repoName rest remoteBase : string) (respHead : http.Header).
Variable respGet : http.Response.

Hypothesis Hsplit :
  strings.SplitN (strings.TrimPrefix (URLPath r) "/r/") "/" 2 = [repoName; rest].
Hypothesis Hrepo : getRepoMap env repoName = (remoteBase, None).
Hypothesis Hhead : Head env (targetUrlOf remoteBase rest) = Some respHead.
Hypothesis Hget : Get env (targetUrlOf remoteBase rest) = Some respGet.
Hypothesis Hend : stopped (mainHandler env st w r) = ExitEnd.

Let p : probe := readProbe respHead.
Let cachePath : string := filepath.Join [cacheDir env; repoName; rest].
Let dirPath : string :=
  filepath.Join [cacheDir env; repoName; filepath.Dir rest].

(** What such a run went through. *)
Lemma ended_shape :
  ∃ st1 w' stored,
    prepareCacheDir env st repoName rest = (st1, cachePath, None)
    ∧ (cachePath ∉ dirs st1) ∧ (dirPath ∈ dirs st1) ∧ cachePath ≠ ""
    ∧ (http.StatusCode respGet < http.StatusBadRequest)%Z
    ∧ http.sent w' = (http.sent w ++ io.ReadAll (http.Body respGet))%list
    ∧ http.finalStatus w' = http.finalStatus w
    ∧ files stored = <[cachePath := io.ReadAll (http.Body respGet)]> (files st)
    ∧ rows stored = rows st ∧ dirs stored = dirs st1
    ∧ let uc := updateCache env stored repoName rest
                  (persistedLastMod respGet) (persistedSize p respGet)
                  (persistedEtag respGet) in
      after (mainHandler env st w r) = uc.1
      ∧ response (mainHandler env st w r) = w'
      ∧ (uc.2 = None ↔
           last (trace (mainHandler env st w r)) ≠ Some (ELog "ERR_UPDATECACHE")).
Proof.
  pose proof Hend as Hend'.
  rewrite (mainHandler_routed env st w r repoName rest remoteBase respHead
             Hsplit Hrepo Hhead) in Hend' |- *.
  destruct (servesFromCache _ _ _ _); [discriminate|].
  destruct (prepareCacheDir_keeps env st repoName rest) as (Hrows & _ & Hfiles).
  set (tr0 := ([EHead (targetUrlOf remoteBase rest)] ++ _)%list) in *.
  destruct (miss_cases env (prepareCacheDir env st repoName rest).1.1 w repoName
              rest (targetUrlOf remoteBase rest)
              (prepareCacheDir env st repoName rest).1.2 (readProbe respHead) tr0)
    as [[_ H] | [(g & _ & Hc & H) | [(g & _ & _ & _ & H)
       | [(g & f & w' & f' & e & _ & _ & Hcr & HC & H)
         | (g & f & w' & f' & Hg & Hcode & Hcr & HC & H)]]]];
    cbv zeta in H; rewrite H in Hend' |- *; try discriminate.
  rewrite Hget in Hg. injection Hg as <-.
  destruct (copy_after_create _ _ _ _ _ _ _ _ _ _ Hcr HC)
    as (dw & df & Hs & Hfs & Hst' & _ & _ & Hall).
  destruct (Hall eq_refl) as [-> ->].
  pose proof (Create_nonempty _ _ _ _ Hcr) as Hne.
  (* the directory was prepared, or the cache path would be empty *)
  destruct (prepareCacheDir_cases env st repoName rest)
    as (st1 & [[e0 Hp] | [Hp Hdir]] & _ & _ & _ & _);
    rewrite Hp in *; cbn [fst snd] in *; [contradiction|].
  fold dirPath in Hdir. fold cachePath in Hcr, H, Hne, Hp |- *.
  exists st1, w', (withFiles st1 (os.store f')).
  split; [reflexivity|]. split_and!; auto.
  - unfold os.Create in Hcr.
    destruct (String.eqb cachePath ""); [discriminate|].
    destruct (createFails env cachePath); [discriminate|]. cbn [orb] in Hcr.
    case_bool_decide as Hin; [discriminate|]. exact Hin.
  - cbn [withFiles files]. rewrite Hst', Hfiles. reflexivity.
  - cbn [trace]. fold p.
    destruct ((updateCache env (withFiles st1 (os.store f')) repoName rest
                 (persistedLastMod respGet) (persistedSize p respGet)
                 (persistedEtag respGet)).2) as [e|].
    + rewrite !app_assoc, last_snoc. split; [discriminate|].
      intros Hn. now contradiction Hn.
    + rewrite app_nil_r.
      change [ELog "DBG_HEAD"; ELog "DBG_RESP"; ELog "DBG_CACHEPAYLOAD"]
        with ([ELog "DBG_HEAD"; ELog "DBG_RESP"] ++ [ELog "DBG_CACHEPAYLOAD"])%list.
      rewrite !app_assoc, last_snoc. split; [discriminate|reflexivity].
Qed.

(** X9.  A MISS that runs to its end without logging [ERR_UPDATECACHE]
    leaves under the key the descriptor read off the GET response, not off
    the probe: afterwards the lookup of the key answers [true] for the
    GET's [Last-Modified], for the GET's [Content-Length] (the probe's when
    the GET has none) and for the GET's [ETag] less one leading [W/], and
    [false] for anything else; the blob at the cache path is the body. *)
Theorem miss_persists_the_validators_of_the_fetch :
  selectFails env = false →
  last (trace (mainHandler env st w r)) ≠ Some (ELog "ERR_UPDATECACHE") →
  (∀ lm sz et,
     itemInCache env (after (mainHandler env st w r)) repoName rest lm sz et
     = (bool_decide ((lm, sz, et)
                     = (persistedLastMod respGet, persistedSize p respGet,
                        persistedEtag respGet)), None))
  ∧ files (after (mainHandler env st w r)) !! cachePath
    = Some (io.ReadAll (http.Body respGet)).
Proof.
  intros Hsel Hlog.
  destruct ended_shape
    as (st1 & w' & stored & Hprep & Hcp & Hdp & Hne & Hcode & Hsent
        & Hfs & Hfiles & Hrows & Hdirs & Hafter & Hresp & Hiff).
  rewrite Hafter. split.
  - apply itemInCache_after_updateCache; [exact Hsel | now apply Hiff].
  - rewrite updateCache_files, Hfiles. apply lookup_insert_eq.
Qed.

(** X10.  When the copy has succeeded and the descriptor cannot be
    written, because the COUNT, the BEGIN, the statement or the COMMIT
    fails, the failure is only logged: the client has the 200 and the whole
    body, the blob is in place, and the index is as it was before the
    request. *)
Theorem persist_failure_does_not_fail_the_response :
  countFails env = true ∨ beginFails env = true
  ∨ execFails env = true ∨ commitFails env = true →
  last (trace (mainHandler env st w r)) = Some (ELog "ERR_UPDATECACHE")
  ∧ http.sent (response (mainHandler env st w r))
    = (http.sent w ++ io.ReadAll (http.Body respGet))%list
  ∧ http.finalStatus (response (mainHandler env st w r)) = http.finalStatus w
  ∧ files (after (mainHandler env st w r)) !! cachePath
    = Some (io.ReadAll (http.Body respGet))
  ∧ rows (after (mainHandler env st w r)) = rows st.
Proof.
  intros Hfail.
  destruct ended_shape
    as (st1 & w' & stored & Hprep & Hcp & Hdp & Hne & Hcode & Hsent
        & Hfs & Hfiles & Hrows & Hdirs & Hafter & Hresp & Hiff).
  set (uc := updateCache env stored repoName rest (persistedLastMod respGet)
               (persistedSize p respGet) (persistedEtag respGet)) in *.
  assert (He : uc.2 ≠ None).
  { intros He. apply updateCache_fails_iff in He as (H1 & H2 & H3 & H4).
    destruct Hfail as [H|[H|[H|H]]]; congruence. }
  assert (Hst : uc.1 = stored).
  { destruct (updateCache_cases env stored repoName rest (persistedLastMod respGet)
                (persistedSize p respGet) (persistedEtag respGet))
      as [[_ H] | [(H & _) | (H & _)]]; [exact H | |]; contradiction. }
  rewrite Hafter, Hresp, Hst. split_and!; auto.
  - destruct (last (trace (mainHandler env st w r))) as [ev|] eqn:El.
    + destruct (decide (ev = ELog "ERR_UPDATECACHE")) as [->|Hd]; [reflexivity|].
      exfalso. apply He, Hiff. congruence.
    + exfalso. apply He, Hiff. discriminate.
  - rewrite Hfiles. apply lookup_insert_eq.
Qed.

(** X11.  After a MISS that ran to its end and wrote its descriptor, the
    same request is a HIT and fetches nothing, provided the GET response
    carried the validators of the probe, the entity tag is not a weak one,
    and the two lookups that decide a hit do not fail. *)
Theorem unchanged_probe_after_a_miss_is_a_hit (w2 : http.ResponseWriter) :
  selectFails env = false →
  statFails env cachePath = false →
  last (trace (mainHandler env st w r)) ≠ Some (ELog "ERR_UPDATECACHE") →
  http.RespHeader respGet = respHead →
  strings.HasPrefix (http.Etag respHead) "W/" = false →
  let again := mainHandler env (after (mainHandler env st w r)) w2 r in
  stopped again = ExitHit
  ∧ fetches (trace again) = []
  ∧ EServeFile cachePath ∈ trace again.
Proof.
  intros Hsel Hstat Hlog Hsame Hstrong again.
  destruct ended_shape
    as (st1 & w' & stored & Hprep & Hcp & Hdp & Hne & Hcode & Hsent
        & Hfs & Hfiles & Hrows & Hdirs & Hafter & Hresp & Hiff).
  set (uc := updateCache env stored repoName rest (persistedLastMod respGet)
               (persistedSize p respGet) (persistedEtag respGet)) in *.
  assert (He : uc.2 = None) by now apply Hiff.
  set (st2 := after (mainHandler env st w r)) in *.
  assert (Hf2 : files st2 = <[cachePath := io.ReadAll (http.Body respGet)]> (files st)).
  { rewrite Hafter. subst uc. now rewrite updateCache_files. }
  assert (Hneq : dirPath ≠ cachePath) by (intros Heq; apply Hcp; now rewrite <- Heq).
  (* the directory is prepared again, to the same path *)
  assert (Hprep2 : ∃ st3, prepareCacheDir env st2 repoName rest = (st3, cachePath, None)
                          ∧ rows st3 = rows st2 ∧ files st3 = files st2).
  { assert (Hd2 : dirPath ∈ dirs st2).
    { destruct (updateCache_frame env stored repoName rest
                  (persistedLastMod respGet) (persistedSize p respGet)
                  (persistedEtag respGet)) as (Hd & _).
      rewrite Hafter. subst uc. now rewrite Hd, Hdirs. }
    unfold prepareCacheDir. fold dirPath cachePath.
    rewrite (MkdirAll_dir env st2 dirPath Hd2).
    eexists. split; [reflexivity|]. auto. }
  destruct Hprep2 as (st3 & Hp2 & Hr3 & Hf3).
  (* the probe's values are the values just written *)
  assert (Hvals : (lastMod p, contentLength p, probeEtag p)
                  = (persistedLastMod respGet, persistedSize p respGet,
                     persistedEtag respGet)).
  { unfold persistedLastMod, persistedSize, persistedEtag. rewrite Hsame.
    unfold strings.TrimPrefix. rewrite Hstrong. subst p. cbn.
    now destruct (String.eqb (http.ContentLength respHead) ""). }
  assert (Hin : itemInCache env st3 repoName rest (lastMod p) (contentLength p)
                  (probeEtag p) = (true, None)).
  { rewrite (itemInCache_rows env st3 uc.1)
      by (now rewrite Hr3, Hafter).
    subst uc.
    rewrite (itemInCache_after_updateCache env stored repoName rest _ _ _ Hsel He).
    now rewrite bool_decide_eq_true_2. }
  assert (Hs : os.Stat env st3 cachePath = StatNil).
  { unfold os.Stat. rewrite Hstat, Hf3, Hf2, lookup_insert_eq.
    destruct (String.eqb_spec cachePath ""); [contradiction|].
    rewrite bool_decide_eq_true_2 by eauto. reflexivity. }
  subst again.
  rewrite (mainHandler_routed env st2 w2 r repoName rest remoteBase respHead
             Hsplit Hrepo Hhead).
  rewrite Hp2. cbn [fst snd]. fold p. rewrite Hin. cbn [fst].
  unfold servesFromCache. rewrite Hs. cbn.
  split_and!; auto.
  apply list_elem_of_In. right. now left.
Qed.

End Ended.

(** Scenario A leaves the descriptor of its GET response. *)
Lemma miss_persists_the_validators_of_the_fetch_witness :
  itemInCache envOk (after (serve envOk emptyState exampleRequest))
    "pkgs" "a/b.tar" "Mon" 3 "abc" = (true, None)
  ∧ files (after (serve envOk emptyState exampleRequest)) !! examplePath
    = Some (io.ReadAll exampleBody).
Proof.
  destruct (miss_persists_the_validators_of_the_fetch envOk emptyState
              (http.newResponseWriter None) exampleRequest
              "pkgs" "a/b.tar" "https://example.org/repo/" (exampleHeader "abc")
              exampleResponse eq_refl eq_refl eq_refl eq_refl eq_refl eq_refl
              ltac:(vm_compute; discriminate)) as [H1 H2].
  split; [exact (H1 "Mon" 3%Z "abc") | exact H2].
Defined.

(** The commit fails after the three bytes have been served. *)
Lemma persist_failure_does_not_fail_the_response_witness :
  let res := serve envNoCommit emptyState exampleRequest in
  last (trace res) = Some (ELog "ERR_UPDATECACHE")
  ∧ http.sent (response res) = io.ReadAll exampleBody
  ∧ http.finalStatus (response res) = 200%Z
  ∧ files (after res) !! examplePath = Some (io.ReadAll exampleBody)
  ∧ rows (after res) = [].
Proof.
  exact (persist_failure_does_not_fail_the_response envNoCommit emptyState
           (http.newResponseWriter None) exampleRequest
           "pkgs" "a/b.tar" "https://example.org/repo/" (exampleHeader "abc")
           exampleResponse eq_refl eq_refl eq_refl eq_refl eq_refl
           (or_intror (or_intror (or_intror eq_refl)))).
Defined.

(** Scenario B follows scenario A. *)
Lemma unchanged_probe_after_a_miss_is_a_hit_witness :
  let again := mainHandler envOk (after (serve envOk emptyState exampleRequest))
                 (http.newResponseWriter None) exampleRequest in
  stopped again = ExitHit
  ∧ fetches (trace again) = []
  ∧ EServeFile examplePath ∈ trace again.
Proof.
  exact (unchanged_probe_after_a_miss_is_a_hit envOk emptyState
           (http.newResponseWriter None) exampleRequest
           "pkgs" "a/b.tar" "https://example.org/repo/" (exampleHeader "abc")
           exampleResponse eq_refl eq_refl eq_refl eq_refl eq_refl
           (http.newResponseWriter None) eq_refl eq_refl
           ltac:(vm_compute; discriminate) eq_refl eq_refl).
Defined.

(** ** A cache directory that cannot be prepared (lines 165-168) *)

(** X12.  When [prepareCacheDir] fails the error is logged and the request
    goes on with an empty cache path: it is never a hit, it asks the
    upstream for the body once, and when the upstream answers below 400
    the body is not served: the reply is the 500 of [CACHE CREATE ERROR].
    No blob and no descriptor is stored; the directories [os.MkdirAll]
    made before it failed stay. *)
Theorem failed_cache_directory_fetches_but_cannot_serve (env : Env) (st : State)
  (w : http.ResponseWriter) (r : Request)
  (repoName rest remoteBase : string) (respHead : http.Header) :
  strings.SplitN (strings.TrimPrefix (URLPath r) "/r/") "/" 2 = [repoName; rest] →
  getRepoMap env repoName = (remoteBase, None) →
  Head env (targetUrlOf remoteBase rest) = Some respHead →
  (prepareCacheDir env st repoName rest).2 ≠ None →
  let res := mainHandler env st w r in
  stopped res ≠ ExitHit
  ∧ fetches (trace res) = [targetUrlOf remoteBase rest]
  ∧ ELog "ERR_PREPARECACHEPATH" ∈ trace res
  ∧ files (after res) = files st
  ∧ rows (after res) = rows st
  ∧ dirs st ⊆ dirs (after res)
  ∧ (∀ respGet,
       Get env (targetUrlOf remoteBase rest) = Some respGet →
       (http.StatusCode respGet < http.StatusBadRequest)%Z →
       stopped res = ExitCreateError
       ∧ response res
         = http.Error w "CACHE CREATE ERROR" http.StatusInternalServerError).
Proof.
  intros Hs Hr Hh Hprep res. subst res.
  rewrite (mainHandler_routed env st w r repoName rest remoteBase respHead Hs Hr Hh).
  destruct (prepareCacheDir_cases env st repoName rest)
    as (st1 & [[e Hp] | [Hp _]] & Hrows & _ & Hfiles & Hdirs);
    rewrite Hp in Hprep |- *; cbn [fst snd] in Hprep |- *; [|congruence].
  unfold servesFromCache at 1.
  cbn [os.Stat String.eqb os.IsNotExist negb andb].
  destruct (miss_cases env st1 w repoName rest (targetUrlOf remoteBase rest) ""
              (readProbe respHead)
              ([EHead (targetUrlOf remoteBase rest)] ++ [ELog "ERR_PREPARECACHEPATH"]))
    as [[Hg H] | [(g & Hg & Hc & H) | [(g & Hg & Hc & _ & H)
       | [(g & f & w' & f' & e' & _ & _ & Hcr & _)
         | (g & f & w' & f' & _ & _ & Hcr & _)]]]];
    try (exfalso; now apply (Create_nonempty _ _ _ _ Hcr));
    cbv zeta in H; rewrite H; cbn [stopped trace after response];
    (split_and!; [discriminate | reflexivity
                 | apply list_elem_of_In; cbn; tauto
                 | exact Hfiles | exact Hrows | exact Hdirs |]);
    intros respGet Hget Hcode.
  - congruence.
  - rewrite Hg in Hget. injection Hget as <-. lia.
  - auto.
Qed.

(** The directory of the blob cannot be made: the body is fetched and a 500
    is served; nothing is stored, and the directory above it stays. *)
Lemma failed_cache_directory_fetches_but_cannot_serve_witness :
  let res := serve envNoMkdir emptyState exampleRequest in
  stopped res = ExitCreateError
  ∧ fetches (trace res) = [exampleUrl]
  ∧ http.status (response res) = Some 500%Z
  ∧ files (after res) = ∅
  ∧ rows (after res) = []
  ∧ bool_decide ("/cache/pkgs" ∈ dirs (after res)) = true.
Proof.
  destruct (failed_cache_directory_fetches_but_cannot_serve envNoMkdir emptyState
              (http.newResponseWriter None) exampleRequest
              "pkgs" "a/b.tar" "https://example.org/repo/" (exampleHeader "abc")
              eq_refl eq_refl eq_refl ltac:(vm_compute; discriminate))
    as (_ & H2 & _ & H4 & H5 & _ & H6).
  destruct (H6 exampleResponse eq_refl ltac:(vm_compute; reflexivity)) as [H7 H8].
  split_and!; [exact H7 | exact H2 | exact (f_equal http.status H8)
              | exact H4 | exact H5 | vm_compute; reflexivity].
Defined.

(** ** Concurrent calls on a key that already has its row *)

Lemma countItems_update env st repo itemPath lm sz et repo' itemPath' :
  countItems (updateItems env st repo itemPath lm sz et) repo' itemPath'
  = countItems st repo' itemPath'.
Proof.
  unfold countItems.
  destruct (decide ((repo', itemPath') = (repo, itemPath))) as [[= -> ->]|Hne].
  - now rewrite select_update_same, length_map.
  - now rewrite select_update_other.
Qed.

Lemma ucRun_keeps_an_existing_key env repo itemPath schedule :
  ∀ st calls,
  (1 ≤ countItems st repo itemPath)%nat →
  Forall (fun c : ucArgs * ucPoint =>
            c.2 = UcCounted 0 → (ucRepo c.1, ucPath c.1) ≠ (repo, itemPath)) calls →
  countItems (ucRun env st calls schedule).1 repo itemPath
  = countItems st repo itemPath.
Proof.
  induction schedule as [|i schedule IH]; intros st calls Hone Hsafe; [reflexivity|].
  cbn [ucRun]. destruct (calls !! i) as [[a pc]|] eqn:Hi; [|now apply IH].
  assert (Hpc : pc = UcCounted 0 → (ucRepo a, ucPath a) ≠ (repo, itemPath)).
  { apply (Forall_lookup_1 _ _ _ _ Hsafe Hi). }
  assert (Hstep : countItems (ucStep env st a pc).1 repo itemPath
                  = countItems st repo itemPath
                  ∧ ((ucStep env st a pc).2 = UcCounted 0 →
                     (ucRepo a, ucPath a) ≠ (repo, itemPath))).
  { destruct pc as [|n|e]; cbn [ucStep].
    - destruct (countFails env); cbn [fst snd]; split; auto; try discriminate.
      intros [= H0] [= H1 H2]. rewrite H1, H2 in H0. lia.
    - unfold writeItem. destruct (beginFails env); cbn [fst snd];
        [split; [reflexivity|discriminate]|].
      destruct (execFails env || commitFails env); cbn [fst snd];
        [split; [reflexivity|discriminate]|].
      split; [|discriminate].
      destruct n as [|n]; cbn [Nat.eqb].
      + unfold countItems. rewrite select_insert_other; [reflexivity|].
        intros Heq. now apply (Hpc eq_refl).
      + apply countItems_update.
    - split; [reflexivity|discriminate]. }
  destruct (ucStep env st a pc) as [st' pc']. cbn [fst snd] in Hstep.
  destruct Hstep as [Hc Hs]. rewrite IH.
  - exact Hc.
  - now rewrite Hc.
  - apply Forall_insert; [exact Hsafe | exact Hs].
Qed.

(** X13.  The race of the count with the write only bites on a key
    without a row.  For a key that has at least one row, calls of
    [updateCache] on any keys, interleaved by any schedule, leave the key
    with exactly the rows it had, never one more and never one fewer. *)
Theorem existing_key_never_gains_a_row (env : Env) (st : State)
  (args : list ucArgs) (schedule : list nat) (repo itemPath : string) :
  (1 ≤ countItems st repo itemPath)%nat →
  countItems (ucRun env st (List.map (fun a => (a, UcStart)) args) schedule).1
    repo itemPath
  = countItems st repo itemPath.
Proof.
  intros Hone. apply ucRun_keeps_an_existing_key; [exact Hone|].
  apply Forall_forall. intros [a pc] Hin.
  apply list_elem_of_In, in_map_iff in Hin as (a' & [= <- <-] & _).
  discriminate.
Qed.

(** Two revalidations of the stored key, both counting before either
    writes, leave its single row single. *)
Lemma existing_key_never_gains_a_row_witness :
  countItems
    (ucRun envOk descriptorOnly
       (List.map (fun a => (a, UcStart)) [fetchedMon; fetchedTue])
       bothCountFirst).1 "pkgs" "a/b.tar" = 1%nat.
Proof.
  exact (existing_key_never_gains_a_row envOk descriptorOnly
           [fetchedMon; fetchedTue] bothCountFirst "pkgs" "a/b.tar"
           (le_n 1)).
Defined.

(** ** The index across a whole request *)

(** X14.  A request that no other writer interrupts keeps the index at one
    row per key at most, whichever way it ends. *)
Theorem request_keeps_one_row_per_key (env : Env) (st : State)
  (w : http.ResponseWriter) (r : Request) :
  oneRowPerKey (rows st) →
  oneRowPerKey (rows (after (mainHandler env st w r))).
Proof.
  intros Hinv.
  destruct (handler_cases env st w r)
    as [H | [(rn & rs & e & Hs & Hr & H) | [(rn & rs & rb & Hs & Hr & Hh & H)
       | (rn & rs & rb & rh & Hs & Hr & Hh)]]].
  1-3: cbv zeta in H; now rewrite H.
  rewrite (mainHandler_routed env st w r rn rs rb rh Hs Hr Hh).
  destruct (prepareCacheDir_keeps env st rn rs) as (Hrows & _ & _).
  set (st1 := (prepareCacheDir env st rn rs).1.1) in *.
  set (cp := (prepareCacheDir env st rn rs).1.2).
  set (tr0 := ([EHead (targetUrlOf rb rs)] ++ _)%list).
  destruct (servesFromCache _ _ _ _); [cbn [after]; now rewrite Hrows|].
  destruct (miss_cases env st1 w rn rs (targetUrlOf rb rs) cp (readProbe rh) tr0)
    as [[_ H] | [(g & _ & Hc & H) | [(g & _ & _ & _ & H)
       | [(g & f & w' & f' & e & _ & _ & Hcr & HC & H)
         | (g & f & w' & f' & _ & _ & Hcr & HC & H)]]]];
    cbv zeta in H; rewrite H; cbn [after withFiles rows];
    try (now rewrite Hrows).
  apply updateCache_one_row_per_key. cbn [withFiles rows]. now rewrite Hrows.
Qed.

(** Scenario A, from the empty index. *)
Lemma request_keeps_one_row_per_key_witness :
  oneRowPerKey (rows (after (serve envOk emptyState exampleRequest))).
Proof.
  exact (request_keeps_one_row_per_key envOk emptyState
           (http.newResponseWriter None) exampleRequest oneRowPerKey_nil).
Defined.

(** ** Requests that share a cache path *)




(** X16.  Two requests that miss on one key at the same time can leave at
    the cache path bytes that are no prefix of the body, although the first
    of them has written the body to its end: the [os.Create] of the second
    empties the file under the first, which writes on at its old offset.
    Alone, the first leaves the body. *)
Theorem second_create_truncates_under_the_first_writer :
  truncatedUnderWriter.1 !! examplePath
  = Some [Byte.x00; Byte.x00; "c"%byte]
  ∧ truncatedUnderWriter.2
    = [(Some {| os.handlePath := examplePath; os.offset := 3 |}, []);
       (Some {| os.handlePath := examplePath; os.offset := 0 |}, [])]
  ∧ ¬ ([Byte.x00; Byte.x00; "c"%byte] `prefix_of` io.ReadAll exampleBody)
  ∧ blobAlone examplePath ∅ exampleBody !! examplePath
    = Some (io.ReadAll exampleBody).
Proof.
  split_and!; try (vm_compute; reflexivity).
  intros [k Hk]. vm_compute in Hk. discriminate.
Qed.
